(** * Weather-Analyzer: the record store, the deduplication policy, the
    ingestion pipeline and the query engine of [WeatherLogger] (src/main.py).

    The development is a shallow embedding of the methods of [WeatherLogger]:
    every Python method becomes a function of the same name; the JSON file,
    the clock and the HTTP provider are explicit arguments; a Python
    exception is the [Raise] branch of the [result] type, and a [try] with a
    bare [except:] is the [try_except] combinator. *)

From Stdlib Require Import ZArith QArith Ascii String Lia.
From stdpp Require Import base option list gmap strings sorting.

Local Open Scope Z_scope.

(** ** Exceptions and fallible computations *)

Inductive exn :=
  | KeyError | TypeError | AttributeError | ValueError | OSError | JSONDecodeError.

Inductive result (A : Type) :=
  | Ok (a : A)
  | Raise (e : exn).
Arguments Ok {A} a.
Arguments Raise {A} e.

#[export] Instance result_ret : MRet result := fun _ a => Ok a.
#[export] Instance result_bind : MBind result := fun _ _ f m =>
  match m with Ok a => f a | Raise e => Raise e end.

(** [try: body except: handler], with a bare [except:] that catches every
    exception. *)
Definition try_except {A} (body : result A) (handler : result A) : result A :=
  match body with Ok a => Ok a | Raise _ => handler end.

Definition of_option {A} (e : exn) (o : option A) : result A :=
  match o with Some a => Ok a | None => Raise e end.

Fixpoint mapR {A B} (f : A -> result B) (l : list A) : result (list B) :=
  match l with
  | [] => Ok []
  | x :: l' => y ← f x; ys ← mapR f l'; Ok (y :: ys)
  end.

(** ** Python strings

    A [str] is a [string]; characters are compared by code, which for the
    UTF-8 encoding of a text is the order of its code points. *)

Definition is_upper (c : ascii) : bool :=
  let n := N_of_ascii c in ((65 <=? n) && (n <=? 90))%N.

(** [str.lower()], on the ASCII letters. *)
Definition lower_char (c : ascii) : ascii :=
  if is_upper c then ascii_of_N (N_of_ascii c + 32) else c.

Fixpoint lower (s : string) : string :=
  match s with
  | EmptyString => EmptyString
  | String c s' => String (lower_char c) (lower s')
  end.

(** The ASCII characters for which [str.isspace()] holds: tab, line feed,
    vertical tab, form feed, carriage return, the separators 28..31 and
    the space. *)
Definition is_space (c : ascii) : bool :=
  let n := N_of_ascii c in
  (((9 <=? n) && (n <=? 13)) || ((28 <=? n) && (n <=? 32)))%N.

Fixpoint lstrip (s : string) : string :=
  match s with
  | EmptyString => EmptyString
  | String c s' => if is_space c then lstrip s' else s
  end.

Fixpoint rstrip (s : string) : string :=
  match s with
  | EmptyString => EmptyString
  | String c s' =>
      match rstrip s' with
      | EmptyString => if is_space c then EmptyString else String c EmptyString
      | r => String c r
      end
  end.

(** [str.strip()]. *)
Definition strip (s : string) : string := rstrip (lstrip s).

(** [s.replace('Z', '+00:00')]. *)
Fixpoint replace_Z (s : string) : string :=
  match s with
  | EmptyString => EmptyString
  | String c s' =>
      if Ascii.eqb c "Z" then ("+00:00" ++ replace_Z s')%string
      else String c (replace_Z s')
  end.

(** ** JSON values as [json.load] returns them

    A number is an [int] or a [float]; a float is represented by the
    rational it denotes (NaN and the infinities are outside the model). *)

Inductive number :=
  | NInt (z : Z)
  | NFloat (q : Q).

Definition num_val (n : number) : Q :=
  match n with NInt z => inject_Z z | NFloat q => q end.

Inductive scalar :=
  | JNull
  | JBool (b : bool)
  | JNum (n : number)
  | JStr (s : string).

(** An element of the stored array: an object (a Python [dict] with string
    keys) whose fields are scalars, or a scalar.  Nested arrays and objects
    inside a record are outside the model. *)
Inductive entry :=
  | JObj (fields : gmap string scalar)
  | JAtom (v : scalar).

(** The parsed document: the array the program writes, or any other JSON
    value ([JOther]: an object, a string, a number, [null]). *)
Inductive document :=
  | JArray (data : list entry)
  | JOther.

(** The state of [self.data_file]: absent, present with a content
    [json.load] rejects (an empty file is one), or a JSON document. *)
Inductive file_state :=
  | NoFile
  | Corrupt
  | Parsed (d : document).

(** [with open(self.data_file, 'r') as f: data = json.load(f)]. *)
Definition json_load (fs : file_state) : result document :=
  match fs with
  | NoFile => Raise OSError
  | Corrupt => Raise JSONDecodeError
  | Parsed d => Ok d
  end.

(** Iterating over the loaded value ([for entry in data], [sorted(data)]).
    A value that is not an array either cannot be iterated, or yields
    nothing, or yields strings, on which the first subscript raises
    [TypeError]; each reader of the file then ends in its default result,
    which is also what the [Raise] here leads to. *)
Definition py_iter (d : document) : result (list entry) :=
  match d with
  | JArray data => Ok data
  | JOther => Raise TypeError
  end.

(** [entry[key]]. *)
Definition getitem (e : entry) (key : string) : result scalar :=
  match e with
  | JObj fields => of_option KeyError (fields !! key)
  | JAtom _ => Raise TypeError
  end.

(** [v.lower()] and [v.replace('Z', '+00:00')] exist on strings only. *)
Definition py_lower (v : scalar) : result string :=
  match v with JStr s => Ok (lower s) | _ => Raise AttributeError end.

Definition py_replace_Z (v : scalar) : result string :=
  match v with JStr s => Ok (replace_Z s) | _ => Raise AttributeError end.

(** A number as Python arithmetic and comparisons see it: [bool] is a
    subclass of [int]. *)
Definition as_number (v : scalar) : option number :=
  match v with
  | JNum n => Some n
  | JBool b => Some (NInt (if b then 1 else 0))
  | _ => None
  end.

Definition Qltb (a b : Q) : bool := negb (Qle_bool b a).

(** [a < b] on JSON scalars: defined between two strings and between two
    numbers, [TypeError] otherwise. *)
Definition py_lt (a b : scalar) : result bool :=
  match a, b with
  | JStr s, JStr t => Ok (String.ltb s t)
  | _, _ =>
      match as_number a, as_number b with
      | Some x, Some y => Ok (Qltb (num_val x) (num_val y))
      | _, _ => Raise TypeError
      end
  end.

Definition py_gt (a b : scalar) : result bool := py_lt b a.

(** ** [datetime]

    A [datetime] value: the civil fields and the UTC offset of its [tzinfo]
    in microseconds ([None] for a naive value). *)

Record datetime := mk_datetime {
  year : Z; month : Z; day : Z;
  hour : Z; minute : Z; second : Z; microsecond : Z;
  utcoffset : option Z
}.

Definition is_leap (y : Z) : bool :=
  (y mod 4 =? 0) && (negb (y mod 100 =? 0) || (y mod 400 =? 0)).

Definition days_in_month (y m : Z) : Z :=
  if m =? 2 then (if is_leap y then 29 else 28)
  else if (m =? 4) || (m =? 6) || (m =? 9) || (m =? 11) then 30
  else 31.

Definition days_before_year (y : Z) : Z :=
  let p := y - 1 in p * 365 + p / 4 - p / 100 + p / 400.

Definition days_before_month (y m : Z) : Z :=
  match m with
  | 1 => 0 | 2 => 31 | 3 => 59 | 4 => 90 | 5 => 120 | 6 => 151
  | 7 => 181 | 8 => 212 | 9 => 243 | 10 => 273 | 11 => 304 | _ => 334
  end + (if (2 <? m) && is_leap y then 1 else 0).

(** The proleptic Gregorian ordinal of a date, 1 for 0001-01-01. *)
Definition ymd2ord (y m d : Z) : Z :=
  days_before_year y + days_before_month y m + d.

Definition us_per_second : Z := 1000000.
Definition us_per_day : Z := 86400 * us_per_second.

(** The fields read as a count of microseconds, the offset left aside. *)
Definition naive_micros (dt : datetime) : Z :=
  (((ymd2ord (year dt) (month dt) (day dt) * 24 + hour dt) * 60
     + minute dt) * 60 + second dt) * us_per_second + microsecond dt.

(** The instant an aware value denotes, in microseconds of UTC. *)
Definition utc_instant (dt : datetime) : option Z :=
  off ← utcoffset dt; Some (naive_micros dt - off).

(** The range checks of the [datetime] and [timezone] constructors. *)
Definition valid_fields (y m d hh mm ss us : Z) : bool :=
  (1 <=? y) && (y <=? 9999) && (1 <=? m) && (m <=? 12)
  && (1 <=? d) && (d <=? days_in_month y m)
  && (0 <=? hh) && (hh <? 24) && (0 <=? mm) && (mm <? 60)
  && (0 <=? ss) && (ss <? 60) && (0 <=? us) && (us <? 1000000).

Definition valid_offset (o : option Z) : bool :=
  match o with
  | None => true
  | Some off => (- us_per_day <? off) && (off <? us_per_day)
  end.

Definition valid_datetime (dt : datetime) : bool :=
  valid_fields (year dt) (month dt) (day dt)
    (hour dt) (minute dt) (second dt) (microsecond dt)
  && valid_offset (utcoffset dt).

(** *** Formatting: [datetime.isoformat()] *)

Definition digit_char (d : Z) : ascii := ascii_of_N (48 + Z.to_N d).

(** [n] on [k] decimal digits, zero padded (the [%0kd] of a number below
    [10^k]). *)
Fixpoint fmt_digits (k : nat) (n : Z) : string :=
  match k with
  | O => EmptyString
  | S k' =>
      String (digit_char (n / 10 ^ Z.of_nat k'))
             (fmt_digits k' (n mod 10 ^ Z.of_nat k'))
  end.

Definition format_time (hh mm ss us : Z) : string :=
  (fmt_digits 2 hh ++ ":" ++ fmt_digits 2 mm ++ ":" ++ fmt_digits 2 ss
   ++ (if (us =? 0)%Z then "" else "." ++ fmt_digits 6 us))%string.

Definition format_offset (o : option Z) : string :=
  match o with
  | None => EmptyString
  | Some off =>
      let a := Z.abs off in
      let hh := a / (3600 * us_per_second) in
      let r := a mod (3600 * us_per_second) in
      let mm := r / (60 * us_per_second) in
      let r' := r mod (60 * us_per_second) in
      let ss := r' / us_per_second in
      let us := r' mod us_per_second in
      ((if (off <? 0)%Z then "-" else "+") ++ fmt_digits 2 hh ++ ":" ++ fmt_digits 2 mm
       ++ (if (r' =? 0)%Z then ""
           else ":" ++ fmt_digits 2 ss
                ++ (if (us =? 0)%Z then "" else "." ++ fmt_digits 6 us)))%string
  end.

Definition isoformat (dt : datetime) : string :=
  (fmt_digits 4 (year dt) ++ "-" ++ fmt_digits 2 (month dt) ++ "-"
   ++ fmt_digits 2 (day dt) ++ "T"
   ++ format_time (hour dt) (minute dt) (second dt) (microsecond dt)
   ++ format_offset (utcoffset dt))%string.

(** *** Parsing: [datetime.fromisoformat]

    The grammar is the documented one of the inverse of [isoformat]:
    [YYYY-MM-DD[*HH[:MM[:SS[.fff[fff]]]][+HH:MM[:SS[.ffffff]]]]], where [*]
    is any single character; every other string is a [ValueError]. *)

Definition digit_of (c : ascii) : option Z :=
  let n := N_of_ascii c in
  if ((48 <=? n) && (n <=? 57))%N then Some (Z.of_N n - 48) else None.

(** Exactly [k] digits at the front of [s]. *)
Fixpoint parse_digits (k : nat) (s : string) (acc : Z) : option (Z * string) :=
  match k with
  | O => Some (acc, s)
  | S k' =>
      match s with
      | String c s' => d ← digit_of c; parse_digits k' s' (acc * 10 + d)
      | EmptyString => None
      end
  end.

Definition expect (c : ascii) (s : string) : option string :=
  match s with
  | String c' s' => if Ascii.eqb c c' then Some s' else None
  | EmptyString => None
  end.

(** The fraction of a second: three or six digits, up to the sign of the
    offset or the end. *)
Definition parse_fraction (s : string) : option (Z * string) :=
  match parse_digits 6 s 0 with
  | Some r => Some r
  | None => '(ms, s') ← parse_digits 3 s 0; Some (ms * 1000, s')
  end.

(** The offset after its sign: [HH:MM[:SS[.ffffff]]], then the end. *)
Definition parse_offset (s : string) : option Z :=
  '(hh, s1) ← parse_digits 2 s 0;
  s2 ← expect ":" s1;
  '(mm, s3) ← parse_digits 2 s2 0;
  match s3 with
  | EmptyString => Some ((hh * 3600 + mm * 60) * us_per_second)
  | _ =>
      s4 ← expect ":" s3;
      '(ss, s5) ← parse_digits 2 s4 0;
      match s5 with
      | EmptyString => Some ((hh * 3600 + mm * 60 + ss) * us_per_second)
      | _ =>
          s6 ← expect "." s5;
          '(us, s7) ← parse_digits 6 s6 0;
          match s7 with
          | EmptyString => Some ((hh * 3600 + mm * 60 + ss) * us_per_second + us)
          | _ => None
          end
      end
  end.

(** What follows the time fields: nothing (a naive value) or a signed
    offset. *)
Definition parse_tz (s : string) : option (option Z) :=
  match s with
  | EmptyString => Some None
  | String c s' =>
      if Ascii.eqb c "+" then off ← parse_offset s'; Some (Some off)
      else if Ascii.eqb c "-" then off ← parse_offset s'; Some (Some (- off))
      else None
  end.

(** [HH[:MM[:SS[.fff[fff]]]]] followed by the optional offset. *)
Definition parse_time (s : string) : option (Z * Z * Z * Z * option Z) :=
  '(hh, s1) ← parse_digits 2 s 0;
  match expect ":" s1 with
  | Some s2 =>
      '(mm, s3) ← parse_digits 2 s2 0;
      match expect ":" s3 with
      | Some s4 =>
          '(ss, s5) ← parse_digits 2 s4 0;
          match expect "." s5 with
          | Some s6 =>
              '(us, s7) ← parse_fraction s6;
              tz ← parse_tz s7; Some (hh, mm, ss, us, tz)
          | None => tz ← parse_tz s5; Some (hh, mm, ss, 0, tz)
          end
      | None => tz ← parse_tz s3; Some (hh, mm, 0, 0, tz)
      end
  | None => tz ← parse_tz s1; Some (hh, 0, 0, 0, tz)
  end.

Definition parse_isoformat (s : string) : option datetime :=
  '(y, s1) ← parse_digits 4 s 0;
  s2 ← expect "-" s1;
  '(m, s3) ← parse_digits 2 s2 0;
  s4 ← expect "-" s3;
  '(d, s5) ← parse_digits 2 s4 0;
  match s5 with
  | EmptyString => Some (mk_datetime y m d 0 0 0 0 None)
  | String _ t =>
      '(hh, mm, ss, us, tz) ← parse_time t;
      Some (mk_datetime y m d hh mm ss us tz)
  end.

Definition fromisoformat (s : string) : result datetime :=
  match parse_isoformat s with
  | Some dt => if valid_datetime dt then Ok dt else Raise ValueError
  | None => Raise ValueError
  end.

(** [a > t] for a parsed value [a] and an aware value given by its instant
    [t]: comparing a naive value with an aware one is a [TypeError]. *)
Definition datetime_gt (a : datetime) (t : Z) : result bool :=
  match utc_instant a with
  | Some i => Ok (t <? i)
  | None => Raise TypeError
  end.

Definition two_hours : Z := 2 * 3600 * us_per_second.
Definition twenty_four_hours : Z := 24 * 3600 * us_per_second.

(** ** [sorted] and [list.sort] with a key

    The keys are computed first, for every element and from left to right,
    so an exception of the key function is raised even for a list of one
    element.  The keys are then compared with [<].  Two strings compare,
    two numbers compare, and every other pair of scalars raises
    [TypeError]; a sort of two elements or more compares every element
    with another one and class with class, so it succeeds exactly when the
    keys are all strings or all numbers.  The sort is stable, also with
    [reverse=True]. *)

Definition is_str (v : scalar) : bool :=
  match v with JStr _ => true | _ => false end.

Definition is_num (v : scalar) : bool :=
  match as_number v with Some _ => true | None => false end.

Definition orderable (keys : list scalar) : bool :=
  match keys with
  | [] | [_] => true
  | _ => forallb is_str keys || forallb is_num keys
  end.

Definition key_ltb (a b : scalar) : bool :=
  match py_lt a b with Ok r => r | Raise _ => false end.

Fixpoint insert_by {A} (before : A -> A -> bool) (x : A) (l : list A) : list A :=
  match l with
  | [] => [x]
  | y :: l' => if before x y then x :: l else y :: insert_by before x l'
  end.

(** Stable sort: an element moves behind a later one only when [before]
    refuses to leave it in front. *)
Definition stable_sort {A} (before : A -> A -> bool) (l : list A) : list A :=
  foldr (insert_by before) [] l.

Definition key_before (reverse : bool) (p q : scalar * entry) : bool :=
  if reverse then negb (key_ltb p.1 q.1) else negb (key_ltb q.1 p.1).

Definition sorted (key : entry -> result scalar) (reverse : bool)
    (l : list entry) : result (list entry) :=
  keys ← mapR key l;
  if orderable keys
  then Ok ((stable_sort (key_before reverse) (zip keys l)).*2)
  else Raise TypeError.

(** [max(logs, key=...)] and [min(logs, key=...)] on a list that is not
    empty: the first element is the candidate, and a later element
    replaces it only when its key is strictly better. *)
Fixpoint min_max (better : scalar -> scalar -> result bool)
    (key : entry -> result scalar) (best : entry) (best_key : scalar)
    (l : list entry) : result entry :=
  match l with
  | [] => Ok best
  | x :: l' =>
      k ← key x;
      b ← better k best_key;
      if (b : bool) then min_max better key x k l'
      else min_max better key best best_key l'
  end.

Definition py_max (key : entry -> result scalar) (l : list entry) : result entry :=
  match l with
  | [] => Raise ValueError
  | x :: l' => k ← key x; min_max py_gt key x k l'
  end.

Definition py_min (key : entry -> result scalar) (l : list entry) : result entry :=
  match l with
  | [] => Raise ValueError
  | x :: l' => k ← key x; min_max py_lt key x k l'
  end.

(** A list comprehension with a fallible condition. *)
Fixpoint filterR {A} (p : A -> result bool) (l : list A) : result (list A) :=
  match l with
  | [] => Ok []
  | x :: l' => b ← p x; r ← filterR p l'; Ok (if (b : bool) then x :: r else r)
  end.

(** ** Python dictionaries keyed by scalars

    Insertion ordered; two keys are the same key when they are equal with
    [==] (so [1], [1.0] and [True] are one key). *)

Definition py_eq (a b : scalar) : bool :=
  match a, b with
  | JNull, JNull => true
  | JStr s, JStr t => String.eqb s t
  | _, _ =>
      match as_number a, as_number b with
      | Some x, Some y => Qeq_bool (num_val x) (num_val y)
      | _, _ => false
      end
  end.

Definition dict (V : Type) := list (scalar * V).

Fixpoint dict_get {V} (d : dict V) (k : scalar) : option V :=
  match d with
  | [] => None
  | (k', v) :: d' => if py_eq k' k then Some v else dict_get d' k
  end.

(** [d[k] = v]: the value of an existing key is replaced in place, a new
    key goes to the end. *)
Fixpoint dict_set {V} (d : dict V) (k : scalar) (v : V) : dict V :=
  match d with
  | [] => [(k, v)]
  | (k', v') :: d' =>
      if py_eq k' k then (k', v) :: d' else (k', v') :: dict_set d' k v
  end.

(** ** The floating-point arithmetic of the averages

    [sum], [/], [round(_, 2)] and [-] on Python numbers are IEEE
    operations; the development takes them as an interface and is
    parametric in it. *)

Class PyFloat := {
  py_sum : list number -> number;
  py_truediv : number -> Z -> number;
  py_round2 : number -> number;
  py_sub : number -> number -> number
}.

(** ** The methods of [WeatherLogger] *)

Definition _kelvin_to_celsius `{PyFloat} (kelvin : number) : number :=
  py_round2 (py_sub kelvin (NFloat (27315 # 100))).  (* the literal 273.15 *)

(** The loop of [_is_duplicate_entry]: [Ok true] is the [return True] in
    the loop, [Ok false] is the loop running to its end. *)
Fixpoint scan_entries (city : string) (two_hours_ago : Z) (data : list entry)
    : result bool :=
  match data with
  | [] => Ok false
  | entry :: rest =>
      c ← getitem entry "city";
      lc ← py_lower c;
      if String.eqb lc (lower city) then
        ts ← getitem entry "utc_timestamp";
        s ← py_replace_Z ts;
        entry_time ← fromisoformat s;
        recent ← datetime_gt entry_time two_hours_ago;
        if (recent : bool) then Ok true else scan_entries city two_hours_ago rest
      else scan_entries city two_hours_ago rest
  end.

(** [current_time] is an aware UTC value, given by its instant. *)
Definition _is_duplicate_entry (fs : file_state) (city : string)
    (current_time : Z) : result bool :=
  let two_hours_ago := current_time - two_hours in
  try_except
    (data ← json_load fs;
     entries ← py_iter data;
     scan_entries city two_hours_ago entries)
    (Ok false).

(** [data.append(weather_data)]: only a list has [append]. *)
Definition py_append (d : document) (x : entry) : result document :=
  match d with
  | JArray data => Ok (JArray (data ++ [x]))
  | JOther => Raise AttributeError
  end.

(** The file after the call. *)
Definition _save_weather_data (fs : file_state) (weather_data : entry)
    : result file_state :=
  data ← try_except (json_load fs) (Ok (JArray []));
  data' ← py_append data weather_data;
  Ok (Parsed data').

Definition timestamp_key (x : entry) : result scalar := getitem x "utc_timestamp".
Definition temperature_key (x : entry) : result scalar := getitem x "temperature".

Definition get_all_logs (fs : file_state) : result (list entry) :=
  try_except
    (data ← json_load fs;
     entries ← py_iter data;
     sorted timestamp_key true entries)
    (Ok []).

(** The loop that fills [city_temps]. *)
Fixpoint group_temps (logs : list entry) (city_temps : dict (list scalar))
    : result (dict (list scalar)) :=
  match logs with
  | [] => Ok city_temps
  | log :: rest =>
      city ← getitem log "city";
      let city_temps1 :=
        match dict_get city_temps city with
        | None => dict_set city_temps city []
        | Some _ => city_temps
        end in
      temperature ← getitem log "temperature";
      let temps := default [] (dict_get city_temps1 city) in
      group_temps rest (dict_set city_temps1 city (temps ++ [temperature]))
  end.

(** [round(sum(temps) / len(temps), 2)]; [sum] raises on a value that is
    not a number. *)
Definition average `{PyFloat} (temps : list scalar) : result number :=
  nums ← of_option TypeError (mapM as_number temps);
  Ok (py_round2 (py_truediv (py_sum nums) (Z.of_nat (length nums)))).

Definition get_city_avg_temp `{PyFloat} (fs : file_state) : result (dict number) :=
  logs ← get_all_logs fs;
  city_temps ← group_temps logs [];
  mapR (fun '(city, temps) => avg ← average temps; Ok (city, avg)) city_temps.

(** The condition of the [last_24h] comprehension. *)
Definition after_cutoff (cutoff_time : Z) (log : entry) : result bool :=
  ts ← getitem log "utc_timestamp";
  s ← py_replace_Z ts;
  t ← fromisoformat s;
  datetime_gt t cutoff_time.

(** [now] is the instant of [datetime.now(timezone.utc)]. *)
Definition get_hottest_coldest_cities (fs : file_state) (now : Z)
    (last_24h : bool) : result (option entry * option entry) :=
  logs ← get_all_logs fs;
  logs ← (if last_24h
          then let cutoff_time := now - twenty_four_hours in
               filterR (after_cutoff cutoff_time) logs
          else Ok logs);
  match logs with
  | [] => Ok (None, None)
  | _ =>
      hottest ← py_max temperature_key logs;
      coldest ← py_min temperature_key logs;
      Ok (Some hottest, Some coldest)
  end.

Definition city_matches (city : string) (log : entry) : result bool :=
  c ← getitem log "city";
  lc ← py_lower c;
  Ok (String.eqb lc (lower city)).

(** The series [plot_temp] draws: the value of [city_logs] after the
    sort, and the empty list when the method returns before it. *)
Definition plot_temp_city_logs (fs : file_state) (city : string)
    : result (list entry) :=
  logs ← get_all_logs fs;
  city_logs ← filterR (city_matches city) logs;
  match city_logs with
  | [] => Ok []
  | _ => sorted timestamp_key false city_logs
  end.

(** ** The provider and the ingestion pipeline *)

(** The fields [_fetch_weather_data] reads in the body of a response:
    [data['name']], [data['main']['temp']],
    [data['weather'][0]['description']] and [data['main']['humidity']];
    [None] where the path does not exist. *)
Record payload := mk_payload {
  p_name : option scalar;
  p_temp : option scalar;
  p_description : option scalar;
  p_humidity : option scalar
}.

(** What [session.get(url)] leads to: an exception of the transport, or a
    response with its status and its body ([None] when [response.json()]
    raises). *)
Inductive http_outcome :=
  | TransportError
  | HttpResponse (status : Z) (body : option payload).

(** What one fetch task meets: the outcome of its request, and the two
    readings of the clock it takes, [datetime.now(timezone.utc)] and
    [datetime.now()]. *)
Record task_env := mk_task_env {
  outcome : http_outcome;
  utc_now : datetime;
  local_now : datetime
}.

Definition build_weather_data `{PyFloat} (env : task_env) (data : payload)
    : result entry :=
  name ← of_option KeyError (p_name data);
  temp ← of_option KeyError (p_temp data);
  kelvin ← of_option TypeError (as_number temp);
  description ← of_option KeyError (p_description data);
  humidity ← of_option KeyError (p_humidity data);
  Ok (JObj (<["city" := name]>
           (<["temperature" := JNum (_kelvin_to_celsius kelvin)]>
           (<["description" := description]>
           (<["humidity" := humidity]>
           (<["utc_timestamp" := JStr (isoformat (utc_now env))]>
           (<["local_timestamp" := JStr (isoformat (local_now env))]> ∅))))))).

(** The awaited result of one task: the record, or [None]. *)
Definition _fetch_weather_data `{PyFloat} (env : task_env) : option entry :=
  match outcome env with
  | TransportError => None
  | HttpResponse status body =>
      if status =? 200 then
        match (data ← of_option ValueError body; build_weather_data env data) with
        | Ok weather_data => Some weather_data
        | Raise _ => None
        end
      else None
  end.

(** The truth value of a result of [_fetch_weather_data]. *)
Definition truthy (r : option entry) : bool :=
  match r with
  | None => false
  | Some (JObj fields) => negb (bool_decide (fields = ∅))
  | Some (JAtom v) =>
      match v with
      | JNull => false
      | JBool b => b
      | JNum n => negb (Qeq_bool (num_val n) 0)
      | JStr s => negb (String.eqb s "")
      end
  end.

(** The first loop: the cities to fetch, stripped, in the order given. *)
Fixpoint partition_cities (fs : file_state) (current_time : Z)
    (cities : list string) : result (list string * list string) :=
  match cities with
  | [] => Ok ([], [])
  | city :: rest =>
      dup ← _is_duplicate_entry fs (strip city) current_time;
      '(valid_cities, skipped_cities) ← partition_cities fs current_time rest;
      Ok (if (dup : bool)
          then (valid_cities, strip city :: skipped_cities)
          else (strip city :: valid_cities, skipped_cities))
  end.

(** The second loop: the results are saved one by one, in the order of
    [asyncio.gather], which is the order of the tasks. *)
Fixpoint log_results (fs : file_state) (results : list (option entry))
    (logged_data : list entry) : result (file_state * list entry) :=
  match results with
  | [] => Ok (fs, logged_data)
  | weather_data :: rest =>
      if truthy weather_data then
        match weather_data with
        | Some wd =>
            fs' ← _save_weather_data fs wd;
            log_results fs' rest (logged_data ++ [wd])
        | None => log_results fs rest logged_data
        end
      else log_results fs rest logged_data
  end.

(** [net i city] is what the [i]-th task, the one for [city], meets.  The
    result is the file after the call and the list returned. *)
Definition fetch_and_log_weather `{PyFloat} (fs : file_state)
    (current_time : Z) (net : nat -> string -> task_env)
    (cities : list string) : result (file_state * list entry) :=
  '(valid_cities, skipped_cities) ← partition_cities fs current_time cities;
  match valid_cities with
  | [] => Ok (fs, [])
  | _ =>
      let results := imap (fun i city => _fetch_weather_data (net i city)) valid_cities in
      log_results fs results []
  end.

(** ** An idealised arithmetic

    An instance of [PyFloat] to run the functions on examples: sums and
    quotients without rounding error, and [round] to the nearest
    hundredth, ties to even. *)

Definition round_half_even (q : Q) : Z :=
  let n := Qnum q in
  let d := Zpos (Qden q) in
  let f := n / d in
  let r2 := 2 * (n mod d) in
  if r2 <? d then f
  else if d <? r2 then f + 1
  else if Z.even f then f else f + 1.

Definition exact_sum (l : list number) : number :=
  if forallb (fun n => match n with NInt _ => true | NFloat _ => false end) l
  then NInt (foldr (fun n acc => match n with NInt z => z + acc | NFloat _ => acc end) 0 l)
  else NFloat (Qred (foldr (fun n acc => num_val n + acc)%Q 0%Q l)).

Definition exact_arith : PyFloat := {|
  py_sum := exact_sum;
  py_truediv := fun n k => NFloat (Qred (num_val n / inject_Z k));
  py_round2 := fun n => NFloat (Qred (inject_Z (round_half_even (num_val n * 100)) / 100));
  py_sub := fun a b => NFloat (Qred (num_val a - num_val b))
|}.

(** ** The vocabulary of the specification *)

(** The persisted sequence; an absent or unreadable store holds nothing. *)
Definition stored (fs : file_state) : list entry :=
  match fs with
  | Parsed (JArray data) => data
  | _ => []
  end.

Definition is_some {A} (o : option A) : bool :=
  match o with Some _ => true | None => false end.

Definition has_field (key : string) (e : entry) : bool :=
  match getitem e key with Ok _ => true | Raise _ => false end.

(** *** The fields of an observation *)

Definition location (e : entry) : option string :=
  match getitem e "city" with Ok (JStr c) => Some c | _ => None end.

Definition temperature (e : entry) : option number :=
  match getitem e "temperature" with Ok v => as_number v | Raise _ => None end.

Definition stamp (e : entry) : option string :=
  match getitem e "utc_timestamp" with Ok (JStr s) => Some s | _ => None end.

Definition parsed_stamp (e : entry) : option datetime :=
  s ← stamp e;
  match fromisoformat (replace_Z s) with Ok dt => Some dt | Raise _ => None end.

(** [observed_at_utc]: the instant the stored timestamp denotes. *)
Definition observed_at_utc (e : entry) : option Z :=
  dt ← parsed_stamp e; utc_instant dt.

(** *** Matching and windows *)

(** The case-insensitive match of a stored location with a query. *)
Definition same_location (loc : string) (e : entry) : bool :=
  match location e with
  | Some c => String.eqb (lower c) (lower loc)
  | None => false
  end.

Definition observed_after (cutoff : Z) (e : entry) : bool :=
  match observed_at_utc e with Some i => cutoff <? i | None => false end.


(** A record that makes the scan of [_is_duplicate_entry] return true. *)
Definition hit (loc : string) (cutoff : Z) (e : entry) : bool :=
  same_location loc e && observed_after cutoff e.


(** *** Well-formed records *)

Definition has_stamp (e : entry) : bool := is_some (stamp e).

(** A record the deduplication scan reads without an exception: a
    location that is a string, a timestamp that parses to an aware value. *)
Definition dedup_ready (e : entry) : bool :=
  is_some (location e) && is_some (observed_at_utc e).


(** A timestamp as [_fetch_weather_data] writes it: the [isoformat] of a
    valid UTC value. *)
Definition utc_stamped (e : entry) : bool :=
  match stamp e, parsed_stamp e with
  | Some s, Some dt =>
      bool_decide (utcoffset dt = Some 0) && String.eqb (isoformat dt) s
  | _, _ => false
  end.



(** *** Orders *)

(** [a] is observed no later than [b]. *)
Definition observed_le (a b : entry) : Prop :=
  ∃ i j, observed_at_utc a = Some i ∧ observed_at_utc b = Some j ∧ i <= j.

Definition stamp_le (a b : entry) : Prop :=
  ∃ s t, stamp a = Some s ∧ stamp b = Some t ∧ String.leb s t = true.

Definition stamp_lt (a b : entry) : Prop :=
  ∃ s t, stamp a = Some s ∧ stamp b = Some t ∧ String.ltb s t = true.





(** An element whose sort key is a string, and the order [sorted] leaves
    two such elements in. *)
Definition str_keyed (key : entry -> result scalar) (x : entry) : Prop :=
  ∃ s, key x = Ok (JStr s).

Definition key_ordered (key : entry -> result scalar) (reverse : bool)
    (a b : entry) : Prop :=
  ∃ s t, key a = Ok (JStr s) ∧ key b = Ok (JStr t)
    ∧ (if reverse then String.leb t s else String.leb s t) = true.

(** Lexicographic combination of two comparisons. *)
Definition cmp_then (c1 c2 : comparison) : comparison :=
  match c1 with Eq => c2 | _ => c1 end.

(** The comparison of two [datetime] values field by field. *)
Definition compare_fields (a b : datetime) : comparison :=
  cmp_then (year a ?= year b)
    (cmp_then (month a ?= month b)
       (cmp_then (day a ?= day b)
          (cmp_then (hour a ?= hour b)
             (cmp_then (minute a ?= minute b)
                (cmp_then (second a ?= second b)
                   (microsecond a ?= microsecond b)))))).

(** *** Averages *)





(** *** Batches *)

(** The answer of the deduplication check as a boolean. *)
Definition is_duplicate (fs : file_state) (city : string) (current_time : Z) : bool :=
  match _is_duplicate_entry fs city current_time with
  | Ok b => b
  | Raise _ => false
  end.

(** The cities of a batch that the deduplication policy lets through,
    stripped, in the order given. *)
Definition eligible (fs : file_state) (current_time : Z) (cities : list string)
    : list string :=
  List.filter (fun city => negb (is_duplicate fs city current_time)) (map strip cities).

(** The observations a batch fetches: one per task that succeeds, in the
    order of the tasks. *)
Definition fetched `{PyFloat} (net : nat -> string -> task_env)
    (valid_cities : list string) : list entry :=
  omap id (imap (fun i city => _fetch_weather_data (net i city)) valid_cities).

(** ** The rest of [WeatherLogger] and its callers *)

(** [_init_json_file]: a file that does not exist is created with the
    empty array; an existing file is left alone, whatever it holds. *)
Definition _init_json_file (fs : file_state) : file_state :=
  match fs with
  | NoFile => Parsed (JArray [])
  | _ => fs
  end.

(** [s.replace('Z', '')]. *)
Fixpoint remove_Z (s : string) : string :=
  match s with
  | EmptyString => EmptyString
  | String c s' => if Ascii.eqb c "Z" then remove_Z s' else String c (remove_Z s')
  end.

Definition py_remove_Z (v : scalar) : result string :=
  match v with JStr s => Ok (remove_Z s) | _ => Raise AttributeError end.

(** [datetime.fromisoformat(log['local_timestamp'].replace('Z', ''))]. *)
Definition local_time (log : entry) : result datetime :=
  v ← getitem log "local_timestamp";
  s ← py_remove_Z v;
  fromisoformat s.

(** [s.replace(' ', '_')]. *)
Fixpoint replace_space (s : string) : string :=
  match s with
  | EmptyString => EmptyString
  | String c s' =>
      String (if Ascii.eqb c " " then "_"%char else c) (replace_space s')
  end.

(** The path [plot_temp] saves the figure under. *)
Definition plot_filepath (city : string) : string :=
  ("plots/" ++ replace_space (lower city) ++ "_temp_trend.png")%string.

(** What [plot_temp] hands to the plotting library: the two lists it
    draws, the city of the title and the path of the figure; [None] when
    the method returns at "No data found". *)
Record figure := mk_figure {
  timestamps : list datetime;
  temperatures : list scalar;
  title_city : scalar;
  filepath : string
}.

Definition plot_temp (fs : file_state) (city : string) : result (option figure) :=
  city_logs ← plot_temp_city_logs fs city;
  match city_logs with
  | [] => Ok None
  | first :: _ =>
      ts ← mapR local_time city_logs;
      temps ← mapR temperature_key city_logs;
      name ← getitem first "city";
      Ok (Some (mk_figure ts temps name (plot_filepath city)))
  end.

(** The local clock reading [plot_temp] finds in a record, and a record
    it draws without an exception: a string location, a string timestamp
    to sort by, a temperature and a local timestamp that parses. *)
Definition local_reading (e : entry) : option datetime :=
  match local_time e with Ok dt => Some dt | Raise _ => None end.

Definition plottable (e : entry) : bool :=
  is_some (location e) && has_stamp e && has_field "temperature" e
  && is_some (local_reading e).

(** The records that carry the timestamp string [s]. *)
Definition stamped_at (s : string) (e : entry) : bool :=
  match stamp e with Some t => String.eqb t s | None => false end.

(** The indices of the points [plot_temp] annotates:
    [i % max(1, len(timestamps)//8) == 0]. *)
Definition annotated (n : nat) : list nat :=
  List.filter (fun i => (i mod Nat.max 1 (n / 8) =? 0)%nat) (seq 0 n).

(** [s.split(',')]: never empty. *)
Fixpoint split_comma (s : string) : list string :=
  match s with
  | EmptyString => [EmptyString]
  | String c s' =>
      if Ascii.eqb c ","
      then EmptyString :: split_comma s'
      else match split_comma s' with
           | x :: r => String c x :: r
           | [] => [String c EmptyString]
           end
  end.

Fixpoint count_commas (s : string) : nat :=
  match s with
  | EmptyString => 0
  | String c s' => if Ascii.eqb c "," then S (count_commas s') else count_commas s'
  end.

(** [[city.strip() for city in s.split(',')]], in [option_1] and [main]. *)
Definition parse_cities (s : string) : list string := map strip (split_comma s).

(** [WeatherCLI.option_1] on the line read at the prompt: the file after
    the call and the observations logged. *)
Definition option_1 `{PyFloat} (fs : file_state) (current_time : Z)
    (net : nat -> string -> task_env) (line : string)
    : result (file_state * list entry) :=
  let cities_input := strip line in
  if String.eqb cities_input ""
  then Ok (fs, [])
  else fetch_and_log_weather fs current_time net (parse_cities cities_input).

(** What [option_4] and [option_5] print. *)
Inductive extremes_report :=
  | NoData
  | HottestColdest (hot_city hot_temp hot_desc cold_city cold_temp cold_desc : scalar).

Definition option_extremes (fs : file_state) (now : Z) (last_24h : bool)
    : result extremes_report :=
  '(hottest, coldest) ← get_hottest_coldest_cities fs now last_24h;
  if negb (truthy hottest) || negb (truthy coldest) then Ok NoData
  else
    match hottest, coldest with
    | Some h, Some c =>
        hc ← getitem h "city"; ht ← getitem h "temperature";
        hd ← getitem h "description";
        cc ← getitem c "city"; ct ← getitem c "temperature";
        cd ← getitem c "description";
        Ok (HottestColdest hc ht hd cc ct cd)
    | _, _ => Ok NoData
    end.

Definition option_4 (fs : file_state) (now : Z) : result extremes_report :=
  option_extremes fs now false.

Definition option_5 (fs : file_state) (now : Z) : result extremes_report :=
  option_extremes fs now true.

(** ** Sample data *)

Definition observation (city : string) (celsius : Q) (utc : string) : entry :=
  JObj (<["city" := JStr city]>
       (<["temperature" := JNum (NFloat celsius)]>
       (<["description" := JStr "clear sky"]>
       (<["humidity" := JNum (NInt 50)]>
       (<["utc_timestamp" := JStr utc]>
       (<["local_timestamp" := JStr "2024-01-01T12:00:00"]> ∅)))))).

(** The instant of 2024-01-01T12:00:00 UTC. *)
Definition noon : Z := (738886 * 24 + 12) * 3600 * us_per_second.

Definition paris_10h := observation "Paris" 15 "2024-01-01T10:00:00+00:00".
Definition paris_11h30 := observation "Paris" 16 "2024-01-01T11:30:00+00:00".
Definition paris_13h := observation "Paris" 15 "2024-01-01T13:00:00+00:00".
Definition paris_lower_12h := observation "paris" 17 "2024-01-01T12:00:00.500000+00:00".
Definition london_11h := observation "London" 5 "2024-01-01T11:00:00+00:00".
Definition paris_bad_stamp := observation "Paris" 15 "yesterday".
Definition no_stamp : entry :=
  JObj (<["city" := JStr "Oslo"]> (<["temperature" := JNum (NFloat 1)]> ∅)).

Definition history : list entry := [paris_10h; paris_lower_12h; london_11h].

(** A provider that knows Rome and answers 404 for every other city. *)
Definition rome_env : task_env :=
  mk_task_env
    (HttpResponse 200
       (Some (mk_payload (Some (JStr "Rome")) (Some (JNum (NFloat (29315 # 100))))
                         (Some (JStr "clear sky")) (Some (JNum (NInt 40))))))
    (mk_datetime 2024 1 1 12 0 1 0 (Some 0))
    (mk_datetime 2024 1 1 13 0 1 250000 None).

Definition not_found_env : task_env :=
  mk_task_env (HttpResponse 404 None)
    (mk_datetime 2024 1 1 12 0 2 0 (Some 0))
    (mk_datetime 2024 1 1 13 0 2 0 None).

Definition sample_net (i : nat) (city : string) : task_env :=
  if String.eqb city "Rome" then rome_env else not_found_env.

Definition rome_12h : entry :=
  JObj (<["city" := JStr "Rome"]>
       (<["temperature" := JNum (NFloat 20)]>
       (<["description" := JStr "clear sky"]>
       (<["humidity" := JNum (NInt 40)]>
       (<["utc_timestamp" := JStr "2024-01-01T12:00:01+00:00"]>
       (<["local_timestamp" := JStr "2024-01-01T13:00:01.250000"]> ∅)))))).

(** Records with a timestamp and a field missing. *)
Definition no_city : entry :=
  JObj (<["temperature" := JNum (NFloat 3)]>
       (<["utc_timestamp" := JStr "2024-01-01T09:00:00+00:00"]> ∅)).

Definition no_temperature : entry :=
  JObj (<["city" := JStr "Oslo"]>
       (<["utc_timestamp" := JStr "2024-01-01T09:30:00+00:00"]> ∅)).

(** * Properties *)

(** ** Sorting *)

Section stable_sort.
Context {A : Type} (before : A -> A -> bool).

Lemma insert_by_perm x l : insert_by before x l ≡ₚ x :: l.
Proof.
  induction l as [|y l IH]; simpl; [done|].
  destruct (before x y); [done|].
  rewrite IH. apply Permutation_swap.
Qed.

Lemma stable_sort_cons x l :
  stable_sort before (x :: l) = insert_by before x (stable_sort before l).
Proof. reflexivity. Qed.

Lemma stable_sort_perm l : stable_sort before l ≡ₚ l.
Proof.
  induction l as [|x l IH]; [done|].
  by rewrite stable_sort_cons, insert_by_perm, IH.
Qed.

(** On a domain [P] where [before] is total and transitive, the result
    is sorted: every element is [before] all the later ones. *)
Context (P : A -> Prop).
Hypothesis before_total : ∀ x y, P x → P y → before x y = false → before y x = true.
Hypothesis before_trans :
  ∀ x y z, P x → P y → P z → before x y = true → before y z = true → before x z = true.

Lemma insert_by_sorted x l :
  P x → Forall P l →
  StronglySorted (fun a b => before a b = true) l →
  StronglySorted (fun a b => before a b = true) (insert_by before x l).
Proof.
  intros Hx Hl Hs. induction Hs as [|y l Hs IH Hy]; simpl.
  - repeat constructor.
  - inversion_clear Hl as [|? ? HPy HPl].
    destruct (before x y) eqn:Hxy.
    + constructor; [by constructor|].
      constructor; [done|].
      rewrite Forall_forall in *. intros z Hz.
      apply (before_trans x y z); auto.
    + constructor; [auto|].
      rewrite (insert_by_perm x l). constructor; [|done].
      by apply before_total.
Qed.

Lemma stable_sort_sorted l :
  Forall P l → StronglySorted (fun a b => before a b = true) (stable_sort before l).
Proof.
  induction 1 as [|x l Hx Hl IH]; [constructor|].
  rewrite stable_sort_cons. apply insert_by_sorted; [done| |done].
  by rewrite stable_sort_perm.
Qed.

End stable_sort.
(** ** The order of strings *)

Lemma ascii_compare_refl c : Ascii.compare c c = Eq.
Proof. unfold Ascii.compare. apply N.compare_refl. Qed.

Lemma string_compare_refl s : String.compare s s = Eq.
Proof. induction s as [|c s IH]; simpl; [done|]. by rewrite ascii_compare_refl. Qed.

Lemma string_compare_lt_trans a b c :
  String.compare a b = Lt → String.compare b c = Lt → String.compare a c = Lt.
Proof.
  revert b c. induction a as [|x a IH]; intros [|y b] [|z c]; simpl; try done.
  unfold Ascii.compare.
  destruct (N.compare_spec (N_of_ascii x) (N_of_ascii y)) as [Hxy|Hxy|Hxy];
    destruct (N.compare_spec (N_of_ascii y) (N_of_ascii z)) as [Hyz|Hyz|Hyz];
    try done; intros H1 H2.
  - rewrite Hxy, Hyz, N.compare_refl. eauto.
  - rewrite Hxy. by apply N.compare_lt_iff in Hyz as ->.
  - rewrite <- Hyz. by apply N.compare_lt_iff in Hxy as ->.
  - assert (N_of_ascii x < N_of_ascii z)%N as Hxz by lia.
    by apply N.compare_lt_iff in Hxz as ->.
Qed.

(** [negb (t <? s)] is [s <=? t]. *)
Lemma string_leb_ltb s t : String.leb s t = negb (String.ltb t s).
Proof.
  unfold String.leb, String.ltb. rewrite (String.compare_antisym s t).
  by destruct (String.compare t s).
Qed.

Lemma string_leb_trans a b c :
  String.leb a b = true → String.leb b c = true → String.leb a c = true.
Proof.
  unfold String.leb. intros H1 H2.
  destruct (String.compare a b) eqn:Hab; [| |done].
  - apply String.compare_eq_iff in Hab as ->. done.
  - destruct (String.compare b c) eqn:Hbc; [| |done].
    + apply String.compare_eq_iff in Hbc as <-. by rewrite Hab.
    + by rewrite (string_compare_lt_trans a b c).
Qed.

(** ** Fallible loops *)

Lemma mapR_Ok {A B} (f : A -> result B) l ys :
  mapR f l = Ok ys → Forall2 (fun x y => f x = Ok y) l ys.
Proof.
  revert ys. induction l as [|x l IH]; simpl; intros ys Hys.
  - injection Hys as <-. constructor.
  - destruct (f x) as [y|] eqn:Hy; simpl in Hys; [|done].
    destruct (mapR f l) as [ys'|] eqn:Hl; simpl in Hys; [|done].
    injection Hys as <-. constructor; auto.
Qed.


Lemma mapR_raise {A B} (f : A -> result B) l :
  Exists (fun x => ∃ e, f x = Raise e) l → ∃ e, mapR f l = Raise e.
Proof.
  induction 1 as [x l [e He]|x l Hl [e IH]]; simpl.
  - rewrite He. by exists e.
  - destruct (f x) as [y|e']; simpl; [|by exists e'].
    rewrite IH. by exists e.
Qed.

Lemma filterR_total {A} (p : A -> result bool) (q : A -> bool) l :
  Forall (fun x => p x = Ok (q x)) l → filterR p l = Ok (List.filter q l).
Proof.
  induction 1 as [|x l Hx Hl IH]; simpl; [done|]. rewrite Hx, IH. simpl.
  by destruct (q x).
Qed.

Lemma StronglySorted_fmap_on {A B} (P : A -> Prop) (R1 : relation A)
    (R2 : relation B) (f : A -> B) l :
  (∀ x y, P x → P y → R1 x y → R2 (f x) (f y)) →
  Forall P l → StronglySorted R1 l → StronglySorted R2 (f <$> l).
Proof.
  intros HR HP Hs. induction Hs as [|x l Hs IH Hx]; simpl; [constructor|].
  inversion_clear HP as [|? ? HPx HPl]. constructor; [auto|].
  rewrite Forall_fmap. rewrite Forall_forall in *. intros y Hy. simpl. auto.
Qed.

Lemma StronglySorted_mono {A} (R1 R2 : relation A) l :
  (∀ x y, R1 x y → R2 x y) → StronglySorted R1 l → StronglySorted R2 l.
Proof.
  intros HR. induction 1 as [|x l Hs IH Hx]; constructor; [done|].
  eapply Forall_impl; eauto.
Qed.

(** ** [sorted] on string keys *)

Lemma orderable_str keys : forallb is_str keys = true → orderable keys = true.
Proof.
  intros H. destruct keys as [|k [|k' keys]]; [done..|].
  unfold orderable. by rewrite H.
Qed.

Lemma key_before_str reverse s t x y :
  key_before reverse (JStr s, x) (JStr t, y)
  = if reverse then String.leb t s else String.leb s t.
Proof.
  unfold key_before, key_ltb; simpl. destruct reverse; by rewrite string_leb_ltb.
Qed.

Lemma sorted_unfold key reverse l keys :
  mapR key l = Ok keys → orderable keys = true →
  sorted key reverse l = Ok ((stable_sort (key_before reverse) (zip keys l)).*2).
Proof. intros Hk Ho. unfold sorted. rewrite Hk. simpl. by rewrite Ho. Qed.

Lemma sorted_perm key reverse l l' : sorted key reverse l = Ok l' → l' ≡ₚ l.
Proof.
  unfold sorted. destruct (mapR key l) as [keys|] eqn:Hk; simpl; [|done].
  destruct (orderable keys); [|done]. intros [= <-].
  rewrite stable_sort_perm. apply mapR_Ok, Forall2_length in Hk.
  rewrite snd_zip; [done|lia].
Qed.

Lemma sorted_str_keys key reverse l :
  Forall (str_keyed key) l →
  ∃ l', sorted key reverse l = Ok l' ∧ l' ≡ₚ l
    ∧ StronglySorted (key_ordered key reverse) l'.
Proof.
  intros Hl.
  set (P := fun p : scalar * entry => ∃ s, p.1 = JStr s ∧ key p.2 = Ok (JStr s)).
  assert (∃ keys, mapR key l = Ok keys ∧ forallb is_str keys = true
                  ∧ Forall P (zip keys l)) as (keys & Hk & Hstr & HP).
  { induction Hl as [|x l [s Hx] Hl (keys & Hk & Hstr & HP)].
    - exists []. by repeat split.
    - exists (JStr s :: keys). simpl. rewrite Hx, Hk. simpl.
      repeat split; [done|]. constructor; [by exists s|done]. }
  eexists. split; [by apply sorted_unfold; [|apply orderable_str]|].
  split.
  { rewrite stable_sort_perm. apply mapR_Ok, Forall2_length in Hk.
    rewrite snd_zip; [done|lia]. }
  apply (StronglySorted_fmap_on P (fun p q => key_before reverse p q = true)).
  - intros [k x] [k' y] (s & Hk1 & Hs) (t & Hk2 & Ht) Hb. simpl in *. subst.
    rewrite key_before_str in Hb. by exists s, t.
  - by rewrite stable_sort_perm.
  - apply (stable_sort_sorted _ P); [| |done].
    + intros [k x] [k' y] (s & Hs & _) (t & Ht & _). simpl in *. subst.
      rewrite !key_before_str. intros Hb.
      destruct reverse.
      * destruct (String.leb_total s t) as [H|H]; [done|congruence].
      * destruct (String.leb_total s t) as [H|H]; [congruence|done].
    + intros [k x] [k' y] [k'' z] (s & Hs & _) (t & Ht & _) (u & Hu & _).
      simpl in *. subst.
      rewrite !key_before_str. destruct reverse; eauto using string_leb_trans.
Qed.

(** Without a key that can be computed there is no result. *)
Lemma sorted_key_raises key reverse l :
  Exists (fun x => ∃ e, key x = Raise e) l → ∃ e, sorted key reverse l = Raise e.
Proof.
  intros H. apply mapR_raise in H as [e He]. exists e. unfold sorted. by rewrite He.
Qed.

(** ** The record store: [get_all_logs] *)

Lemma get_all_logs_total fs : ∃ logs, get_all_logs fs = Ok logs.
Proof.
  unfold get_all_logs.
  destruct (data ← json_load fs; entries ← py_iter data; sorted timestamp_key true entries)
    as [logs|e]; simpl; eauto.
Qed.

Lemma get_all_logs_array data :
  get_all_logs (Parsed (JArray data))
  = try_except (sorted timestamp_key true data) (Ok []).
Proof. reflexivity. Qed.

Lemma get_all_logs_key_raises data :
  Exists (fun x => ∃ e, timestamp_key x = Raise e) data →
  get_all_logs (Parsed (JArray data)) = Ok [].
Proof.
  intros H. rewrite get_all_logs_array.
  by destruct (sorted_key_raises timestamp_key true data H) as [e ->].
Qed.

Lemma get_all_logs_str_keys data :
  Forall (str_keyed timestamp_key) data →
  ∃ logs, get_all_logs (Parsed (JArray data)) = Ok logs ∧ logs ≡ₚ data
    ∧ StronglySorted (key_ordered timestamp_key true) logs.
Proof.
  intros H. rewrite get_all_logs_array.
  destruct (sorted_str_keys timestamp_key true data H) as (logs & -> & ? & ?).
  by exists logs.
Qed.

(** ** The deduplication policy: [_is_duplicate_entry] *)

Lemma location_getitem e c : location e = Some c → getitem e "city" = Ok (JStr c).
Proof.
  unfold location. destruct (getitem e "city") as [[]|]; naive_solver.
Qed.

Lemma stamp_getitem e s : stamp e = Some s → getitem e "utc_timestamp" = Ok (JStr s).
Proof.
  unfold stamp. destruct (getitem e "utc_timestamp") as [[]|]; naive_solver.
Qed.

Lemma observed_at_utc_inv e i :
  observed_at_utc e = Some i →
  ∃ s dt, stamp e = Some s ∧ fromisoformat (replace_Z s) = Ok dt
    ∧ utc_instant dt = Some i.
Proof.
  unfold observed_at_utc, parsed_stamp. destruct (stamp e) as [s|]; simpl; [|done].
  destruct (fromisoformat (replace_Z s)) as [dt|] eqn:Hdt; simpl; [|done].
  intros Hi. by exists s, dt.
Qed.


Lemma scan_entries_other loc cutoff e rest :
  is_some (location e) = true → same_location loc e = false →
  scan_entries loc cutoff (e :: rest) = scan_entries loc cutoff rest.
Proof.
  unfold same_location. destruct (location e) as [c|] eqn:Hc; [|done].
  intros _ Hne. simpl. rewrite (location_getitem _ _ Hc). simpl. by rewrite Hne.
Qed.

Lemma scan_entries_match loc cutoff e rest i :
  same_location loc e = true → observed_at_utc e = Some i →
  scan_entries loc cutoff (e :: rest)
  = if cutoff <? i then Ok true else scan_entries loc cutoff rest.
Proof.
  unfold same_location. destruct (location e) as [c|] eqn:Hc; [|done].
  intros Heq (s & dt & Hs & Hdt & Hi)%observed_at_utc_inv.
  simpl. rewrite (location_getitem _ _ Hc). simpl. rewrite Heq.
  rewrite (stamp_getitem _ _ Hs). simpl. rewrite Hdt. simpl.
  unfold datetime_gt. by rewrite Hi.
Qed.


Lemma scan_entries_ready loc cutoff data :
  forallb dedup_ready data = true →
  scan_entries loc cutoff data = Ok (existsb (hit loc cutoff) data).
Proof.
  induction data as [|e data IH]; [done|].
  intros [[Hloc Hobs]%andb_prop Hdata]%andb_prop. cbn [existsb].
  destruct (observed_at_utc e) as [i|] eqn:Hi; [|done].
  unfold hit at 1, observed_after. rewrite Hi.
  destruct (same_location loc e) eqn:Hm.
  - rewrite (scan_entries_match _ _ _ _ i) by done.
    destruct (cutoff <? i); [done|]. by apply IH.
  - rewrite scan_entries_other by done. by apply IH.
Qed.

(** The scan of a list in two parts: the second part is reached only
    when the first runs to its end. *)
Lemma scan_entries_app loc cutoff pre rest :
  scan_entries loc cutoff (pre ++ rest)
  = match scan_entries loc cutoff pre with
    | Ok false => scan_entries loc cutoff rest
    | r => r
    end.
Proof.
  induction pre as [|e pre IH]; [done|]. cbn [app scan_entries].
  destruct (getitem e "city") as [c|]; simpl; [|done].
  destruct (py_lower c) as [lc|]; simpl; [|done].
  destruct (String.eqb lc (lower loc)); [|done].
  destruct (getitem e "utc_timestamp") as [ts|]; simpl; [|done].
  destruct (py_replace_Z ts) as [s|]; simpl; [|done].
  destruct (fromisoformat s) as [dt|]; simpl; [|done].
  destruct (datetime_gt dt cutoff) as [[]|]; simpl; done.
Qed.

Lemma is_duplicate_entry_array data loc t :
  _is_duplicate_entry (Parsed (JArray data)) loc t
  = try_except (scan_entries loc (t - two_hours) data) (Ok false).
Proof. reflexivity. Qed.







(** ** Load, append, and what a record without timestamp does *)

Lemma has_stamp_str_keyed e : has_stamp e = true → str_keyed timestamp_key e.
Proof.
  unfold has_stamp. destruct (stamp e) as [s|] eqn:Hs; [|done].
  intros _. exists s. by apply stamp_getitem.
Qed.

Lemma key_ordered_stamp_le a b :
  key_ordered timestamp_key true a b → stamp_le b a.
Proof.
  intros (s & t & Ha & Hb & Hle). exists t, s. unfold stamp, timestamp_key in *.
  by rewrite Ha, Hb.
Qed.


Lemma has_field_raises e :
  negb (has_field "utc_timestamp" e) = true → ∃ ex, timestamp_key e = Raise ex.
Proof.
  unfold has_field, timestamp_key. destruct (getitem e "utc_timestamp"); [done|eauto].
Qed.

Lemma get_all_logs_missing_stamp data :
  existsb (fun e => negb (has_field "utc_timestamp" e)) data = true →
  get_all_logs (Parsed (JArray data)) = Ok [].
Proof.
  intros (e & He & Hf)%existsb_exists. apply get_all_logs_key_raises.
  apply Exists_exists. exists e. split; [by apply list_elem_of_In|].
  by apply has_field_raises.
Qed.

Lemma get_all_logs_stamped data :
  forallb has_stamp data = true →
  ∃ logs, get_all_logs (Parsed (JArray data)) = Ok logs ∧ logs ≡ₚ data
    ∧ StronglySorted (fun a b => stamp_le b a) logs.
Proof.
  intros H. destruct (get_all_logs_str_keys data) as (logs & Hl & Hp & Hs).
  { apply Forall_forall. intros e He. apply has_stamp_str_keyed.
    rewrite forallb_forall in H. by apply H, list_elem_of_In. }
  exists logs. repeat split; [done..|].
  eapply StronglySorted_mono; [|done]. intros a b. apply key_ordered_stamp_le.
Qed.

(** C3 (as amended): [get_all_logs] never raises.  It returns the empty
    list when the file is absent, is not JSON, or does not hold an array,
    and also when a stored record has no [utc_timestamp]; when every
    stored record has a string [utc_timestamp] it returns all of them,
    ordered by that string, greatest first. *)
Theorem get_all_logs_never_raises fs :
  ∃ logs, get_all_logs fs = Ok logs
    ∧ (fs = NoFile ∨ fs = Corrupt ∨ fs = Parsed JOther → logs = [])
    ∧ (existsb (fun e => negb (has_field "utc_timestamp" e)) (stored fs) = true →
       logs = [])
    ∧ (forallb has_stamp (stored fs) = true →
       logs ≡ₚ stored fs ∧ StronglySorted (fun a b => stamp_le b a) logs).
Proof.
  destruct fs as [| |[data|]];
    try (exists []; repeat split; try done; constructor).
  destruct (get_all_logs_total (Parsed (JArray data))) as [logs Hl].
  exists logs. split; [done|]. split; [|split].
  - intros [|[|]]; done.
  - intros H%get_all_logs_missing_stamp. simpl in H. rewrite Hl in H. by injection H.
  - intros (logs' & Hl' & ? & ?)%get_all_logs_stamped. simpl in *.
    rewrite Hl in Hl'. by injection Hl' as <-.
Qed.

(** C3 (as stated) fails: the file parses and holds two records, one of
    them without [utc_timestamp], and [get_all_logs] returns the empty
    list; and a well-formed history comes back in another order than the
    persisted one. *)
Lemma get_all_logs_not_the_persisted_sequence :
  json_load (Parsed (JArray [no_stamp; paris_10h])) = Ok (JArray [no_stamp; paris_10h])
  ∧ get_all_logs (Parsed (JArray [no_stamp; paris_10h])) = Ok []
  ∧ get_all_logs (Parsed (JArray [paris_10h; london_11h])) = Ok [london_11h; paris_10h].
Proof. vm_compute. done. Qed.

(** C10: when a stored record has no [utc_timestamp] (or is not an
    object, so that the sort key raises), [get_all_logs] returns the empty
    list, and every query answers as on an empty store. *)
Theorem missing_stamp_hides_history `{PyFloat} data city now last_24h :
  existsb (fun e => negb (has_field "utc_timestamp" e)) data = true →
  get_all_logs (Parsed (JArray data)) = Ok []
  ∧ get_city_avg_temp (Parsed (JArray data)) = Ok []
  ∧ get_hottest_coldest_cities (Parsed (JArray data)) now last_24h = Ok (None, None)
  ∧ plot_temp_city_logs (Parsed (JArray data)) city = Ok [].
Proof.
  intros Hl%get_all_logs_missing_stamp.
  unfold get_city_avg_temp, get_hottest_coldest_cities, plot_temp_city_logs.
  rewrite Hl. by destruct last_24h.
Qed.

Lemma missing_stamp_hides_history_witness :
  get_all_logs (Parsed (JArray [paris_10h; no_stamp; london_11h])) = Ok []
  ∧ @get_city_avg_temp exact_arith (Parsed (JArray [paris_10h; no_stamp; london_11h])) = Ok []
  ∧ get_hottest_coldest_cities (Parsed (JArray [paris_10h; no_stamp; london_11h])) noon false
    = Ok (None, None)
  ∧ plot_temp_city_logs (Parsed (JArray [paris_10h; no_stamp; london_11h])) "Paris" = Ok [].
Proof.
  apply (@missing_stamp_hides_history exact_arith
           [paris_10h; no_stamp; london_11h] "Paris" noon false).
  vm_compute. reflexivity.
Defined.

(** ** Append, then load *)

Lemma save_weather_data_appends fs o :
  fs ≠ Parsed JOther →
  _save_weather_data fs o = Ok (Parsed (JArray (stored fs ++ [o]))).
Proof. by destruct fs as [| |[data|]]. Qed.

Lemma stable_sort_snoc_head {A} (before : A -> A -> bool) l y :
  Forall (fun x => before x y = false) l →
  head (stable_sort before (l ++ [y])) = Some y.
Proof.
  induction 1 as [|x l Hx Hl IH]; [done|].
  cbn [app]. rewrite stable_sort_cons.
  destruct (stable_sort before (l ++ [y])) as [|z r]; [done|].
  injection IH as ->. simpl. by rewrite Hx.
Qed.

Lemma sorted_desc_newest_first data o logs :
  Forall (fun e => stamp_lt e o) data →
  sorted timestamp_key true (data ++ [o]) = Ok logs → head logs = Some o.
Proof.
  intros Hlt. unfold sorted.
  destruct (mapR timestamp_key (data ++ [o])) as [keys|] eqn:Hk; simpl; [|done].
  destruct (orderable keys); [|done]. intros [= <-].
  apply mapR_Ok in Hk. apply Forall2_app_inv_l in Hk as (kd & ko & Hd & Ho & ->).
  apply Forall2_cons_inv_l in Ho as (k & ? & Hko & ->%Forall2_nil_inv_l & ->).
  rewrite zip_with_app by (by apply Forall2_length in Hd).
  change (zip_with pair [k] [o]) with [(k, o)].
  enough (head (stable_sort (key_before true) (zip kd data ++ [(k, o)])) = Some (k, o))
    as Hh.
  { destruct (stable_sort _ _) as [|? ?]; [done|]. simpl in Hh. by injection Hh as ->. }
  apply stable_sort_snoc_head.
  apply Forall_forall. intros [k' x] Hx. unfold key_before. simpl.
  assert (x ∈ data ∧ timestamp_key x = Ok k') as [Hxd Hk'].
  { clear -Hx Hd. apply list_elem_of_lookup in Hx as [i Hi].
    apply lookup_zip_with_Some in Hi as (a & b & [= <- <-] & Ha & Hb).
    split; [by eapply list_elem_of_lookup_2|].
    eapply Forall2_lookup_lr in Hd; eauto. }
  rewrite Forall_forall in Hlt. destruct (Hlt x Hxd) as (s & u & Hs & Hu & Hsu).
  apply stamp_getitem in Hs, Hu. unfold timestamp_key in *.
  rewrite Hs in Hk'. rewrite Hu in Hko. simplify_eq.
  unfold key_ltb. simpl. by rewrite Hsu.
Qed.

(** C7 (as amended): on a store that is absent, unreadable or an array of
    records with a string [utc_timestamp], [_save_weather_data o] followed
    by [get_all_logs] yields a sequence that includes [o].  [o] is the
    last element of the stored array; [get_all_logs] returns the records
    ordered by timestamp string, greatest first, so that [o] comes first
    when its timestamp is strictly the greatest. *)
Theorem save_then_load fs o :
  fs ≠ Parsed JOther →
  forallb has_stamp (stored fs) = true →
  has_stamp o = true →
  ∃ fs' logs, _save_weather_data fs o = Ok fs'
    ∧ stored fs' = stored fs ++ [o]
    ∧ get_all_logs fs' = Ok logs
    ∧ o ∈ logs
    ∧ logs ≡ₚ stored fs ++ [o]
    ∧ StronglySorted (fun a b => stamp_le b a) logs
    ∧ (Forall (fun e => stamp_lt e o) (stored fs) → head logs = Some o).
Proof.
  intros Hfs Hdata Ho.
  destruct (get_all_logs_stamped (stored fs ++ [o])) as (logs & Hl & Hp & Hs).
  { rewrite forallb_app, Hdata. simpl. by rewrite Ho. }
  exists (Parsed (JArray (stored fs ++ [o]))), logs.
  split; [by apply save_weather_data_appends|]. split; [done|].
  split; [done|]. split; [|split; [done|split; [done|]]].
  - rewrite Hp. set_solver.
  - intros Hlt. rewrite get_all_logs_array in Hl.
    destruct (sorted timestamp_key true (stored fs ++ [o])) as [l|] eqn:Hsort.
    + injection Hl as ->. by eapply sorted_desc_newest_first.
    + destruct (sorted_str_keys timestamp_key true (stored fs ++ [o])) as (? & ? & _).
      * apply Forall_forall. intros x Hx. apply has_stamp_str_keyed.
        apply elem_of_app in Hx as [Hx|Hx].
        -- rewrite forallb_forall in Hdata. by apply Hdata, list_elem_of_In.
        -- apply list_elem_of_singleton in Hx. by subst.
      * congruence.
Qed.

Lemma save_then_load_witness :
  ∃ fs' logs, _save_weather_data (Parsed (JArray [paris_10h])) london_11h = Ok fs'
    ∧ stored fs' = stored (Parsed (JArray [paris_10h])) ++ [london_11h]
    ∧ get_all_logs fs' = Ok logs
    ∧ london_11h ∈ logs
    ∧ logs ≡ₚ stored (Parsed (JArray [paris_10h])) ++ [london_11h]
    ∧ StronglySorted (fun a b => stamp_le b a) logs
    ∧ (Forall (fun e => stamp_lt e london_11h) (stored (Parsed (JArray [paris_10h]))) →
       head logs = Some london_11h).
Proof.
  apply (save_then_load (Parsed (JArray [paris_10h])) london_11h).
  - discriminate.
  - vm_compute. reflexivity.
  - vm_compute. reflexivity.
Defined.

(** C7 (as stated) fails: after the append of a newer observation,
    [get_all_logs] returns it first, and the last element is the older
    record. *)
Lemma save_then_load_newest_is_first :
  _save_weather_data (Parsed (JArray [paris_10h])) london_11h
  = Ok (Parsed (JArray [paris_10h; london_11h]))
  ∧ get_all_logs (Parsed (JArray [paris_10h; london_11h])) = Ok [london_11h; paris_10h]
  ∧ last [london_11h; paris_10h] = Some paris_10h
  ∧ location paris_10h = Some "Paris" ∧ location london_11h = Some "London".
Proof. vm_compute. done. Qed.

(** ** The ingestion pipeline *)

Lemma is_duplicate_entry_total fs city t :
  _is_duplicate_entry fs city t = Ok (is_duplicate fs city t).
Proof.
  unfold is_duplicate, _is_duplicate_entry.
  destruct (data ← json_load fs; entries ← py_iter data;
            scan_entries city (t - two_hours) entries) as [b|]; done.
Qed.

Lemma partition_cities_eligible fs t cities :
  ∃ skipped_cities,
    partition_cities fs t cities = Ok (eligible fs t cities, skipped_cities).
Proof.
  induction cities as [|city cities [skipped IH]]; simpl; [by eexists|].
  rewrite is_duplicate_entry_total. simpl. rewrite IH. simpl.
  unfold eligible. simpl. fold (eligible fs t cities).
  destruct (is_duplicate fs (strip city) t); simpl; by eexists.
Qed.

(** What [_fetch_weather_data] returns passes the test [if weather_data]. *)
Lemma fetch_weather_data_truthy `{PyFloat} env :
  _fetch_weather_data env = None ∨ truthy (_fetch_weather_data env) = true.
Proof.
  unfold _fetch_weather_data. destruct (outcome env) as [|status body]; [by left|].
  destruct (status =? 200); [|by left].
  destruct body as [data|]; simpl; [|by left].
  unfold build_weather_data.
  destruct (p_name data); simpl; [|by left].
  destruct (p_temp data) as [temp|]; simpl; [|by left].
  destruct (as_number temp); simpl; [|by left].
  destruct (p_description data); simpl; [|by left].
  destruct (p_humidity data); simpl; [|by left].
  right. apply negb_true_iff, bool_decide_eq_false, insert_non_empty.
Qed.

Lemma log_results_appends fs results logged_data :
  fs ≠ Parsed JOther →
  Forall (fun r => r = None ∨ truthy r = true) results →
  log_results fs results logged_data
  = Ok (match omap id results with
        | [] => fs
        | _ => Parsed (JArray (stored fs ++ omap id results))
        end, logged_data ++ omap id results).
Proof.
  intros Hfs Hres. revert fs logged_data Hfs.
  induction Hres as [|r results Hr Hres IH]; intros fs logged_data Hfs.
  - simpl. by rewrite app_nil_r.
  - destruct Hr as [->|Hr].
    + simpl. by apply IH.
    + destruct r as [wd|]; [|done]. cbn [log_results]. rewrite Hr.
      rewrite save_weather_data_appends by done. cbn [mbind result_bind].
      rewrite IH by done.
      change (omap id (Some wd :: results)) with (wd :: omap id results).
      cbn [stored]. rewrite <- !app_assoc.
      by destruct (omap id results) as [|x l].
Qed.



(** ** Extremes *)















Lemma forallb_perm {A} (p : A -> bool) l l' :
  l ≡ₚ l' → forallb p l = true → forallb p l' = true.
Proof.
  intros Hp. rewrite !forallb_forall. intros H x Hx. apply H.
  apply list_elem_of_In. rewrite Hp. by apply list_elem_of_In.
Qed.

Lemma forallb_filter {A} (p q : A -> bool) l :
  forallb p l = true → forallb p (List.filter q l) = true.
Proof.
  rewrite !forallb_forall. intros H x [Hx _]%filter_In. by apply H.
Qed.





(** ** Averages *)

Section dict.
Context {V : Type}.
Implicit Types d : dict V.







End dict.




Lemma get_all_logs_perm fs :
  forallb has_stamp (stored fs) = true →
  ∃ logs, get_all_logs fs = Ok logs ∧ logs ≡ₚ stored fs.
Proof.
  intros Hs. destruct fs as [| |[data|]]; try (by exists []).
  destruct (get_all_logs_stamped data Hs) as (logs & ? & ? & _). by exists logs.
Qed.




(** ** Timestamps: the order of [isoformat] strings is the order of time *)

Lemma string_app_cons x (a b : string) : (String x a ++ b = String x (a ++ b))%string.
Proof. reflexivity. Qed.

Lemma string_app_nil (b : string) : ("" ++ b = b)%string.
Proof. reflexivity. Qed.

Lemma string_app_assoc (a b c : string) : ((a ++ b) ++ c = a ++ (b ++ c))%string.
Proof.
  induction a as [|x a IH]; [done|]. by rewrite !string_app_cons, IH.
Qed.

Lemma lex_compare P a b r r' :
  0 <= r < P → 0 <= r' < P →
  (a * P + r ?= b * P + r') = cmp_then (a ?= b) (r ?= r').
Proof.
  intros Hr Hr'. unfold cmp_then. destruct (Z.compare_spec a b) as [->|Hlt|Hgt].
  - apply Z.add_compare_mono_l.
  - apply Z.compare_lt_iff. nia.
  - apply Z.compare_gt_iff. nia.
Qed.

Lemma digit_char_compare a b :
  0 <= a <= 9 → 0 <= b <= 9 →
  Ascii.compare (digit_char a) (digit_char b) = (a ?= b).
Proof.
  intros Ha Hb.
  assert (a = 0 ∨ a = 1 ∨ a = 2 ∨ a = 3 ∨ a = 4 ∨ a = 5 ∨ a = 6 ∨ a = 7
          ∨ a = 8 ∨ a = 9) as Ha' by lia.
  assert (b = 0 ∨ b = 1 ∨ b = 2 ∨ b = 3 ∨ b = 4 ∨ b = 5 ∨ b = 6 ∨ b = 7
          ∨ b = 8 ∨ b = 9) as Hb' by lia.
  clear Ha Hb.
  repeat (destruct Ha' as [->|Ha']); try subst a;
    repeat (destruct Hb' as [->|Hb']); try subst b; reflexivity.
Qed.

Lemma pow10_pos k : 0 < 10 ^ Z.of_nat k.
Proof. apply Z.pow_pos_nonneg; lia. Qed.

Lemma digits_split k n :
  0 <= n < 10 ^ Z.of_nat (S k) →
  0 <= n / 10 ^ Z.of_nat k <= 9 ∧ 0 <= n mod 10 ^ Z.of_nat k < 10 ^ Z.of_nat k
  ∧ n = n / 10 ^ Z.of_nat k * 10 ^ Z.of_nat k + n mod 10 ^ Z.of_nat k.
Proof.
  intros Hn. pose proof (pow10_pos k) as Hp.
  rewrite Nat2Z.inj_succ, Z.pow_succ_r in Hn by lia.
  split; [|split].
  - split; [apply Z.div_pos; lia|].
    enough (n / 10 ^ Z.of_nat k < 10) by lia.
    apply Z.div_lt_upper_bound; lia.
  - apply Z.mod_pos_bound; lia.
  - rewrite Z.mul_comm. apply Z.div_mod; lia.
Qed.

Lemma fmt_digits_compare k n m r1 r2 :
  0 <= n < 10 ^ Z.of_nat k → 0 <= m < 10 ^ Z.of_nat k →
  String.compare (fmt_digits k n ++ r1) (fmt_digits k m ++ r2)
  = cmp_then (n ?= m) (String.compare r1 r2).
Proof.
  revert n m. induction k as [|k IH]; intros n m Hn Hm.
  - change (10 ^ Z.of_nat 0) with 1 in *.
    replace n with 0 by lia. replace m with 0 by lia. done.
  - destruct (digits_split k n Hn) as (Ha & Hr & Hnq).
    destruct (digits_split k m Hm) as (Hb & Hr' & Hmq).
    cbn [fmt_digits]. rewrite !string_app_cons. cbn [String.compare].
    rewrite digit_char_compare, IH by done.
    rewrite Hnq at 3. rewrite Hmq at 3. rewrite lex_compare by done.
    by destruct (n / 10 ^ Z.of_nat k ?= m / 10 ^ Z.of_nat k),
               (n mod 10 ^ Z.of_nat k ?= m mod 10 ^ Z.of_nat k).
Qed.

Lemma string_compare_cons c r1 r2 :
  String.compare (String c r1) (String c r2) = String.compare r1 r2.
Proof. simpl. by rewrite ascii_compare_refl. Qed.

(** The calendar. *)

Lemma days_before_year_succ y :
  days_before_year (y + 1) = days_before_year y + 365 + (if is_leap y then 1 else 0).
Proof.
  unfold days_before_year, is_leap. replace (y + 1 - 1) with y by lia.
  destruct (Z.eqb_spec (y mod 4) 0), (Z.eqb_spec (y mod 100) 0),
    (Z.eqb_spec (y mod 400) 0); simpl; Z.div_mod_to_equations; lia.
Qed.

Lemma days_before_year_mono y y' : y <= y' → days_before_year y <= days_before_year y'.
Proof. unfold days_before_year. intros. Z.div_mod_to_equations. lia. Qed.

Lemma month_cases m :
  1 <= m <= 12 →
  m = 1 ∨ m = 2 ∨ m = 3 ∨ m = 4 ∨ m = 5 ∨ m = 6 ∨ m = 7 ∨ m = 8 ∨ m = 9
  ∨ m = 10 ∨ m = 11 ∨ m = 12.
Proof. lia. Qed.

Lemma days_before_month_next y m d m' :
  1 <= m → m < m' → m' <= 12 → d <= days_in_month y m →
  days_before_month y m + d <= days_before_month y m'.
Proof.
  intros H1 Hlt H12 Hd.
  assert (1 <= m <= 12) as Hm by lia. assert (1 <= m' <= 12) as Hm' by lia.
  apply month_cases in Hm, Hm'. unfold days_before_month, days_in_month in *.
  destruct (is_leap y);
    repeat (destruct Hm as [->|Hm]); try subst m;
    repeat (destruct Hm' as [->|Hm']); try subst m'; simpl in *; lia.
Qed.

Lemma days_in_year y m d :
  1 <= m <= 12 → d <= days_in_month y m →
  days_before_month y m + d <= 365 + (if is_leap y then 1 else 0).
Proof.
  intros Hm Hd. apply month_cases in Hm. unfold days_before_month, days_in_month in *.
  destruct (is_leap y); repeat (destruct Hm as [->|Hm]); try subst m; simpl in *; lia.
Qed.

Lemma days_before_month_nonneg y m : 0 <= days_before_month y m.
Proof.
  unfold days_before_month.
  destruct ((2 <? m) && is_leap y);
    repeat match goal with
           | |- context [match ?p with _ => _ end] => destruct p
           end; lia.
Qed.

Lemma ymd2ord_compare y m d y' m' d' :
  1 <= m <= 12 → 1 <= d <= days_in_month y m →
  1 <= m' <= 12 → 1 <= d' <= days_in_month y' m' →
  (ymd2ord y m d ?= ymd2ord y' m' d')
  = cmp_then (y ?= y') (cmp_then (m ?= m') (d ?= d')).
Proof.
  intros Hm Hd Hm' Hd'. unfold ymd2ord, cmp_then.
  pose proof (days_in_year y m d Hm (proj2 Hd)).
  pose proof (days_in_year y' m' d' Hm' (proj2 Hd')).
  pose proof (days_before_month_nonneg y m).
  pose proof (days_before_month_nonneg y' m').
  destruct (Z.compare_spec y y') as [->|Hlt|Hgt].
  - destruct (Z.compare_spec m m') as [->|Hlt|Hgt].
    + apply Z.add_compare_mono_l.
    + apply Z.compare_lt_iff.
      pose proof (days_before_month_next y' m d m'). lia.
    + apply Z.compare_gt_iff.
      pose proof (days_before_month_next y' m' d' m). lia.
  - apply Z.compare_lt_iff.
    pose proof (days_before_year_succ y).
    pose proof (days_before_year_mono (y + 1) y'). lia.
  - apply Z.compare_gt_iff.
    pose proof (days_before_year_succ y').
    pose proof (days_before_year_mono (y' + 1) y). lia.
Qed.

Lemma valid_fields_inv y m d hh mm ss us :
  valid_fields y m d hh mm ss us = true →
  (1 <= y <= 9999 ∧ 1 <= m <= 12 ∧ 1 <= d <= days_in_month y m)
  ∧ 0 <= hh < 24 ∧ 0 <= mm < 60 ∧ 0 <= ss < 60 ∧ 0 <= us < 1000000.
Proof. unfold valid_fields. rewrite !andb_true_iff. lia. Qed.

Lemma valid_datetime_inv dt :
  valid_datetime dt = true →
  (1 <= year dt <= 9999 ∧ 1 <= month dt <= 12
   ∧ 1 <= day dt <= days_in_month (year dt) (month dt))
  ∧ 0 <= hour dt < 24 ∧ 0 <= minute dt < 60 ∧ 0 <= second dt < 60
  ∧ 0 <= microsecond dt < 1000000.
Proof. intros [H _]%andb_prop. by apply valid_fields_inv. Qed.

(** Valid values are ordered as their fields. *)
Lemma naive_micros_compare a b :
  valid_datetime a = true → valid_datetime b = true →
  (naive_micros a ?= naive_micros b) = compare_fields a b.
Proof.
  intros ((Hy & Hm & Hd) & Hh & Hmi & Hs & Hus)%valid_datetime_inv
         ((Hy' & Hm' & Hd') & Hh' & Hmi' & Hs' & Hus')%valid_datetime_inv.
  unfold naive_micros, compare_fields, us_per_second.
  rewrite !lex_compare by done.
  rewrite ymd2ord_compare by done.
  unfold cmp_then.
  by destruct (year a ?= year b), (month a ?= month b), (day a ?= day b),
       (hour a ?= hour b), (minute a ?= minute b), (second a ?= second b).
Qed.

Lemma fmt_digits_compare_2 n m r1 r2 :
  0 <= n < 100 → 0 <= m < 100 →
  String.compare (fmt_digits 2 n ++ r1) (fmt_digits 2 m ++ r2)
  = cmp_then (n ?= m) (String.compare r1 r2).
Proof. intros. by apply fmt_digits_compare. Qed.

Lemma fmt_digits_compare_4 n m r1 r2 :
  0 <= n < 10000 → 0 <= m < 10000 →
  String.compare (fmt_digits 4 n ++ r1) (fmt_digits 4 m ++ r2)
  = cmp_then (n ?= m) (String.compare r1 r2).
Proof. intros. by apply fmt_digits_compare. Qed.

Lemma fmt_digits_compare_6 n m r1 r2 :
  0 <= n < 1000000 → 0 <= m < 1000000 →
  String.compare (fmt_digits 6 n ++ r1) (fmt_digits 6 m ++ r2)
  = cmp_then (n ?= m) (String.compare r1 r2).
Proof. intros. by apply fmt_digits_compare. Qed.

Lemma format_offset_utc : format_offset (Some 0) = "+00:00"%string.
Proof. reflexivity. Qed.

(** The end of the string: the microseconds, when there are some, and the
    offset.  A value without microseconds ends in [+00:00] where a later
    value of the same second continues with a dot, and [+] is below [.]. *)
Lemma fraction_compare us us' :
  0 <= us < 1000000 → 0 <= us' < 1000000 →
  String.compare
    ((if us =? 0 then "" else "." ++ fmt_digits 6 us) ++ "+00:00")
    ((if us' =? 0 then "" else "." ++ fmt_digits 6 us') ++ "+00:00")
  = (us ?= us').
Proof.
  intros Hus Hus'.
  destruct (Z.eqb_spec us 0) as [->|Hne], (Z.eqb_spec us' 0) as [->|Hne'].
  - reflexivity.
  - rewrite string_app_assoc, string_app_cons, !string_app_nil.
    destruct us' as [|p|p]; [done|reflexivity|lia].
  - rewrite string_app_assoc, string_app_cons, !string_app_nil.
    destruct us as [|p|p]; [done|reflexivity|lia].
  - rewrite !string_app_assoc, !string_app_cons, !string_app_nil.
    rewrite string_compare_cons, fmt_digits_compare_6 by done.
    rewrite string_compare_refl. by destruct (us ?= us').
Qed.

(** Two [isoformat] strings of valid UTC values compare as the values. *)
Lemma isoformat_utc_compare a b :
  valid_datetime a = true → valid_datetime b = true →
  utcoffset a = Some 0 → utcoffset b = Some 0 →
  String.compare (isoformat a) (isoformat b) = compare_fields a b.
Proof.
  intros Ha Hb Hoa Hob.
  apply valid_datetime_inv in Ha as ((Hy & Hm & Hd) & Hh & Hmi & Hs & Hus).
  apply valid_datetime_inv in Hb as ((Hy' & Hm' & Hd') & Hh' & Hmi' & Hs' & Hus').
  assert (day a < 100 ∧ day b < 100) as [Hd100 Hd100'].
  { unfold days_in_month in *.
    split; repeat match goal with
                  | H : context [if ?c then _ else _] |- _ => destruct c
                  end; lia. }
  unfold isoformat, format_time, compare_fields. rewrite Hoa, Hob, format_offset_utc.
  rewrite !string_app_assoc, !string_app_cons, !string_app_nil.
  rewrite fmt_digits_compare_4, string_compare_cons by lia.
  rewrite fmt_digits_compare_2, string_compare_cons by lia.
  rewrite fmt_digits_compare_2, string_compare_cons by lia.
  rewrite fmt_digits_compare_2, string_compare_cons by lia.
  rewrite fmt_digits_compare_2, string_compare_cons by lia.
  rewrite fmt_digits_compare_2 by lia.
  by rewrite fraction_compare.
Qed.

Lemma isoformat_utc_leb a b :
  valid_datetime a = true → valid_datetime b = true →
  utcoffset a = Some 0 → utcoffset b = Some 0 →
  String.leb (isoformat a) (isoformat b) = (naive_micros a <=? naive_micros b).
Proof.
  intros. unfold String.leb, Z.leb.
  by rewrite isoformat_utc_compare, naive_micros_compare.
Qed.

(** ** Chronological order of the query results *)

Lemma fromisoformat_valid s dt : fromisoformat s = Ok dt → valid_datetime dt = true.
Proof.
  unfold fromisoformat. destruct (parse_isoformat s) as [dt'|]; [|done].
  destruct (valid_datetime dt') eqn:Hv; [|done]. by intros [= <-].
Qed.

Lemma parsed_stamp_valid e dt : parsed_stamp e = Some dt → valid_datetime dt = true.
Proof.
  unfold parsed_stamp. destruct (stamp e) as [s|]; [|done]. cbn [mbind option_bind].
  destruct (fromisoformat (replace_Z s)) as [dt'|] eqn:Hp; [|done].
  intros [= <-]. by eapply fromisoformat_valid.
Qed.

Lemma utc_stamped_inv e :
  utc_stamped e = true →
  ∃ dt, stamp e = Some (isoformat dt) ∧ valid_datetime dt = true
    ∧ utcoffset dt = Some 0 ∧ observed_at_utc e = Some (naive_micros dt).
Proof.
  unfold utc_stamped, observed_at_utc.
  destruct (stamp e) as [s|] eqn:Hs; [|done].
  destruct (parsed_stamp e) as [dt|] eqn:Hdt; [|done].
  apply parsed_stamp_valid in Hdt.
  intros [Hoff%bool_decide_eq_true <-%String.eqb_eq]%andb_prop.
  exists dt. split; [done|]. split; [done|]. split; [done|].
  cbn [mbind option_bind]. unfold utc_instant. rewrite Hoff.
  cbn [mbind option_bind]. f_equal. lia.
Qed.

Lemma utc_stamped_has_stamp l : forallb utc_stamped l = true → forallb has_stamp l = true.
Proof.
  rewrite !forallb_forall. intros H e He. apply H in He.
  apply utc_stamped_inv in He as (dt & Hs & _). unfold has_stamp. by rewrite Hs.
Qed.

(** On UTC [isoformat] timestamps the order of the strings is the order
    of the instants. *)
Lemma stamp_le_observed_le a b :
  utc_stamped a = true → utc_stamped b = true → stamp_le a b → observed_le a b.
Proof.
  intros (da & Hsa & Hva & Hoa & Hia)%utc_stamped_inv
         (db & Hsb & Hvb & Hob & Hib)%utc_stamped_inv (s & t & Hs & Ht & Hle).
  simplify_eq. rewrite isoformat_utc_leb in Hle by done.
  exists (naive_micros da), (naive_micros db). repeat split; [done..|lia].
Qed.

Lemma StronglySorted_impl_on {A} (P : A -> Prop) (R1 R2 : relation A) l :
  (∀ x y, P x → P y → R1 x y → R2 x y) →
  Forall P l → StronglySorted R1 l → StronglySorted R2 l.
Proof.
  intros HR HP Hs. rewrite <- (list_fmap_id l).
  by apply (StronglySorted_fmap_on P R1 R2 id).
Qed.

Lemma filter_perm {A} (p : A -> bool) l l' :
  l ≡ₚ l' → List.filter p l ≡ₚ List.filter p l'.
Proof.
  induction 1 as [|x l l' Hp IH|x y l|l l' l'' Hp IH Hp' IH']; simpl.
  - done.
  - destruct (p x); by rewrite IH.
  - destruct (p x), (p y); try done. apply Permutation_swap.
  - by rewrite IH.
Qed.

(** C8: on a store whose records carry the UTC [isoformat] timestamp that
    [_fetch_weather_data] writes, [get_all_logs] returns the whole history
    ordered by [observed_at_utc], newest first: the order of the timestamp
    strings, by which the code sorts, is then the order of the instants. *)
Theorem get_all_logs_newest_first fs :
  forallb utc_stamped (stored fs) = true →
  ∃ logs, get_all_logs fs = Ok logs ∧ logs ≡ₚ stored fs
    ∧ StronglySorted (fun a b => observed_le b a) logs.
Proof.
  intros Hu. destruct fs as [| |[data|]]; try (exists []; repeat split; constructor).
  destruct (get_all_logs_stamped data (utc_stamped_has_stamp _ Hu))
    as (logs & Hl & Hp & Hs).
  exists logs. split; [done|]. split; [done|].
  apply (StronglySorted_impl_on (fun e => utc_stamped e = true)
           (fun a b => stamp_le b a)); [|  |done].
  - intros a b Ha Hb. by apply stamp_le_observed_le.
  - apply Forall_forall. intros e He. simpl in Hu. rewrite forallb_forall in Hu.
    apply Hu, list_elem_of_In. by rewrite <- Hp.
Qed.

Lemma get_all_logs_newest_first_witness :
  ∃ logs, get_all_logs (Parsed (JArray history)) = Ok logs
    ∧ logs ≡ₚ stored (Parsed (JArray history))
    ∧ StronglySorted (fun a b => observed_le b a) logs.
Proof.
  apply (get_all_logs_newest_first (Parsed (JArray history))).
  vm_compute. reflexivity.
Defined.

Lemma city_matches_same_location city e :
  is_some (location e) = true → city_matches city e = Ok (same_location city e).
Proof.
  unfold city_matches, same_location. destruct (location e) as [c|] eqn:Hc; [|done].
  intros _. by rewrite (location_getitem _ _ Hc).
Qed.



(** ** What [_fetch_weather_data] writes is read back *)

Lemma digit_char_digit d :
  0 <= d <= 9 → digit_of (digit_char d) = Some d ∧ Ascii.eqb (digit_char d) "Z" = false.
Proof.
  intros Hd.
  assert (d = 0 ∨ d = 1 ∨ d = 2 ∨ d = 3 ∨ d = 4 ∨ d = 5 ∨ d = 6 ∨ d = 7
          ∨ d = 8 ∨ d = 9) as Hd' by lia.
  clear Hd. repeat (destruct Hd' as [->|Hd']); try subst d; by split.
Qed.

Lemma parse_digits_fmt k n acc rest :
  0 <= n < 10 ^ Z.of_nat k →
  parse_digits k (fmt_digits k n ++ rest) acc = Some (acc * 10 ^ Z.of_nat k + n, rest).
Proof.
  revert n acc. induction k as [|k IH]; intros n acc Hn.
  - change (10 ^ Z.of_nat 0) with 1 in *. cbn [parse_digits fmt_digits].
    rewrite string_app_nil. do 2 f_equal. lia.
  - destruct (digits_split k n Hn) as (Ha & Hr & Hnq).
    cbn [fmt_digits]. rewrite string_app_cons. cbn [parse_digits].
    rewrite (proj1 (digit_char_digit _ Ha)). cbn [mbind option_bind].
    rewrite IH by done. do 2 f_equal.
    rewrite Nat2Z.inj_succ, Z.pow_succ_r by lia. lia.
Qed.

Lemma replace_Z_app a b : replace_Z (a ++ b) = (replace_Z a ++ replace_Z b)%string.
Proof.
  induction a as [|c a IH]; [done|]. rewrite string_app_cons. cbn [replace_Z].
  rewrite IH. destruct (Ascii.eqb c "Z"); [|done].
  by rewrite string_app_assoc.
Qed.

Lemma replace_Z_fmt k n : 0 <= n < 10 ^ Z.of_nat k → replace_Z (fmt_digits k n) = fmt_digits k n.
Proof.
  revert n. induction k as [|k IH]; intros n Hn; [done|].
  destruct (digits_split k n Hn) as (Ha & Hr & _).
  cbn [fmt_digits replace_Z]. rewrite (proj2 (digit_char_digit _ Ha)). by rewrite IH.
Qed.

(** The [isoformat] of a valid UTC value has no [Z] to replace. *)
Lemma replace_Z_isoformat_utc dt :
  valid_datetime dt = true → utcoffset dt = Some 0 →
  replace_Z (isoformat dt) = isoformat dt.
Proof.
  intros ((Hy & Hm & Hd) & Hh & Hmi & Hs & Hus)%valid_datetime_inv Hoff.
  assert (day dt < 100).
  { unfold days_in_month in *.
    repeat match goal with
           | H : context [if ?c then _ else _] |- _ => destruct c
           end; lia. }
  unfold isoformat, format_time. rewrite Hoff, format_offset_utc.
  rewrite !replace_Z_app.
  rewrite (replace_Z_fmt 4), !(replace_Z_fmt 2) by (simpl; lia).
  destruct (microsecond dt =? 0); [done|].
  by rewrite replace_Z_app, (replace_Z_fmt 6) by (simpl; lia).
Qed.

Lemma parse_digits_fmt_2 n rest :
  0 <= n < 100 → parse_digits 2 (fmt_digits 2 n ++ rest) 0 = Some (n, rest).
Proof. intros. by rewrite parse_digits_fmt. Qed.

Lemma parse_digits_fmt_4 n rest :
  0 <= n < 10000 → parse_digits 4 (fmt_digits 4 n ++ rest) 0 = Some (n, rest).
Proof. intros. by rewrite parse_digits_fmt. Qed.

Lemma parse_digits_fmt_6 n rest :
  0 <= n < 1000000 → parse_digits 6 (fmt_digits 6 n ++ rest) 0 = Some (n, rest).
Proof. intros. by rewrite parse_digits_fmt. Qed.

Lemma expect_cons c s : expect c (String c s) = Some s.
Proof. unfold expect. by rewrite Ascii.eqb_refl. Qed.

(** [fromisoformat] is the inverse of [isoformat] on valid UTC values. *)
Lemma parse_isoformat_utc dt :
  valid_datetime dt = true → utcoffset dt = Some 0 →
  parse_isoformat (isoformat dt) = Some dt.
Proof.
  intros ((Hy & Hm & Hd) & Hh & Hmi & Hs & Hus)%valid_datetime_inv Hoff.
  assert (day dt < 100).
  { unfold days_in_month in *.
    repeat match goal with
           | H : context [if ?c then _ else _] |- _ => destruct c
           end; lia. }
  destruct dt as [y m d hh mm ss us off]. simpl in *. subst off.
  unfold isoformat, format_time. cbn [year month day hour minute second microsecond utcoffset].
  rewrite format_offset_utc.
  rewrite !string_app_assoc, !string_app_cons, !string_app_nil.
  unfold parse_isoformat.
  rewrite parse_digits_fmt_4 by lia. cbn [mbind option_bind]. rewrite expect_cons.
  cbn [mbind option_bind]. rewrite parse_digits_fmt_2 by lia.
  cbn [mbind option_bind]. rewrite expect_cons.
  cbn [mbind option_bind]. rewrite parse_digits_fmt_2 by lia.
  cbn [mbind option_bind]. unfold parse_time.
  rewrite parse_digits_fmt_2 by lia. cbn [mbind option_bind]. rewrite expect_cons.
  rewrite parse_digits_fmt_2 by lia. cbn [mbind option_bind]. rewrite expect_cons.
  rewrite parse_digits_fmt_2 by lia. cbn [mbind option_bind].
  destruct (Z.eqb_spec us 0) as [->|Hne].
  - reflexivity.
  - rewrite string_app_cons, expect_cons.
    unfold parse_fraction. rewrite parse_digits_fmt_6 by lia. reflexivity.
Qed.

Lemma fromisoformat_isoformat_utc dt :
  valid_datetime dt = true → utcoffset dt = Some 0 →
  fromisoformat (replace_Z (isoformat dt)) = Ok dt.
Proof.
  intros Hv Hoff. rewrite replace_Z_isoformat_utc by done.
  unfold fromisoformat. by rewrite parse_isoformat_utc, Hv.
Qed.

(** ** Examples *)

(** Grouping is by the exact string: "Paris" and "paris" are two keys. *)
Example get_city_avg_temp_case_sensitive :
  @get_city_avg_temp exact_arith (Parsed (JArray [paris_10h; paris_lower_12h; paris_11h30]))
  = Ok [(JStr "paris", NFloat 17); (JStr "Paris", NFloat (31 # 2))].
Proof. vm_compute. reflexivity. Qed.

(** A batch of three: Rome is fetched and appended; Paris was logged
    within two hours and is skipped; Atlantis is answered 404 and leaves
    no trace. *)
Example fetch_and_log_weather_batch :
  @fetch_and_log_weather exact_arith (Parsed (JArray history)) noon sample_net
    [" Rome "; "Paris"; "Atlantis"]
  = Ok (Parsed (JArray (history ++ [rome_12h])), [rome_12h]).
Proof. vm_compute. reflexivity. Qed.

(** Two values of the same afternoon, written with different offsets:
    the order of the strings is not the order of the instants. *)
Example string_order_needs_one_offset :
  String.ltb "2024-01-01T10:00:00+00:00" "2024-01-01T12:00:00+05:00" = true
  ∧ observed_at_utc (observation "Oslo" 1 "2024-01-01T10:00:00+00:00")
    = Some (noon - 2 * 3600 * us_per_second)
  ∧ observed_at_utc (observation "Oslo" 1 "2024-01-01T12:00:00+05:00")
    = Some (noon - 5 * 3600 * us_per_second).
Proof. vm_compute. done. Qed.

(** ** Further properties *)

(** The timestamps the program writes are ordered as time: for two valid
    UTC values, the [isoformat] of the first is below the [isoformat] of
    the second, as strings, exactly when the first instant is earlier. *)
Theorem isoformat_utc_order a b :
  valid_datetime a = true → valid_datetime b = true →
  utcoffset a = Some 0 → utcoffset b = Some 0 →
  ∃ i j, utc_instant a = Some i ∧ utc_instant b = Some j
    ∧ String.ltb (isoformat a) (isoformat b) = (i <? j).
Proof.
  intros Ha Hb Hoa Hob. exists (naive_micros a), (naive_micros b).
  unfold utc_instant. rewrite Hoa, Hob. cbn [mbind option_bind].
  split; [f_equal; lia|]. split; [f_equal; lia|].
  unfold String.ltb, Z.ltb. by rewrite isoformat_utc_compare, naive_micros_compare.
Qed.

Lemma isoformat_utc_order_witness :
  ∃ i j, utc_instant (utc_now rome_env) = Some i
    ∧ utc_instant (utc_now not_found_env) = Some j
    ∧ String.ltb (isoformat (utc_now rome_env)) (isoformat (utc_now not_found_env))
      = (i <? j).
Proof.
  apply (isoformat_utc_order (utc_now rome_env) (utc_now not_found_env));
    vm_compute; reflexivity.
Defined.

(** A record that [_fetch_weather_data] builds while the clock reads a
    valid UTC value has the six fields, a numeric temperature, and a
    timestamp that [fromisoformat] reads back as the instant of the
    clock. *)
Theorem fetch_weather_data_record `{PyFloat} env wd :
  valid_datetime (utc_now env) = true → utcoffset (utc_now env) = Some 0 →
  _fetch_weather_data env = Some wd →
  utc_stamped wd = true
  ∧ observed_at_utc wd = Some (naive_micros (utc_now env))
  ∧ is_some (temperature wd) = true
  ∧ forallb (fun key => has_field key wd)
      ["city"; "temperature"; "description"; "humidity"; "utc_timestamp";
       "local_timestamp"] = true.
Proof.
  intros Hv Hoff. unfold _fetch_weather_data.
  destruct (outcome env) as [|status body]; [done|].
  destruct (status =? 200); [|done].
  destruct body as [data|]; [|done]. cbn [of_option mbind result_bind].
  unfold build_weather_data.
  destruct (p_name data) as [name|]; [|done]. cbn [of_option mbind result_bind].
  destruct (p_temp data) as [temp|]; [|done]. cbn [of_option mbind result_bind].
  destruct (as_number temp) as [kelvin|]; [|done]. cbn [of_option mbind result_bind].
  destruct (p_description data) as [description|]; [|done].
  cbn [of_option mbind result_bind].
  destruct (p_humidity data) as [humidity|]; [|done]. cbn [of_option mbind result_bind].
  intros [= <-].
  assert (stamp (JObj (<["city":=name]> (<["temperature":=JNum (_kelvin_to_celsius kelvin)]>
            (<["description":=description]> (<["humidity":=humidity]>
            (<["utc_timestamp":=JStr (isoformat (utc_now env))]>
            (<["local_timestamp":=JStr (isoformat (local_now env))]> ∅)))))))
          = Some (isoformat (utc_now env))) as Hs.
  { unfold stamp, getitem. by simplify_map_eq. }
  assert (parsed_stamp (JObj (<["city":=name]> (<["temperature":=JNum (_kelvin_to_celsius kelvin)]>
            (<["description":=description]> (<["humidity":=humidity]>
            (<["utc_timestamp":=JStr (isoformat (utc_now env))]>
            (<["local_timestamp":=JStr (isoformat (local_now env))]> ∅)))))))
          = Some (utc_now env)) as Hp.
  { unfold parsed_stamp. rewrite Hs. cbn [mbind option_bind].
    by rewrite fromisoformat_isoformat_utc. }
  split; [|split; [|split]].
  - unfold utc_stamped. rewrite Hs, Hp, Hoff, String.eqb_refl. done.
  - unfold observed_at_utc. rewrite Hp. cbn [mbind option_bind].
    unfold utc_instant. rewrite Hoff. cbn [mbind option_bind]. f_equal. lia.
  - unfold temperature, getitem. by simplify_map_eq.
  - unfold has_field, getitem. cbn [forallb]. by simplify_map_eq.
Qed.

Lemma fetch_weather_data_record_witness :
  utc_stamped rome_12h = true
  ∧ observed_at_utc rome_12h = Some (naive_micros (utc_now rome_env))
  ∧ is_some (temperature rome_12h) = true
  ∧ forallb (fun key => has_field key rome_12h)
      ["city"; "temperature"; "description"; "humidity"; "utc_timestamp";
       "local_timestamp"] = true.
Proof.
  apply (@fetch_weather_data_record exact_arith rome_env rome_12h);
    vm_compute; reflexivity.
Defined.

(** On an empty store (absent, unreadable, or holding no record) every
    read answers with its empty result. *)
Theorem empty_store_queries `{PyFloat} fs city now last_24h :
  stored fs = [] →
  get_all_logs fs = Ok []
  ∧ get_city_avg_temp fs = Ok []
  ∧ get_hottest_coldest_cities fs now last_24h = Ok (None, None)
  ∧ plot_temp_city_logs fs city = Ok []
  ∧ _is_duplicate_entry fs city now = Ok false.
Proof.
  intros Hs.
  assert (get_all_logs fs = Ok []) as Hl
    by (destruct fs as [| |[[|e data]|]]; done).
  unfold get_city_avg_temp, get_hottest_coldest_cities, plot_temp_city_logs.
  rewrite Hl. split; [done|]. split; [done|]. split; [by destruct last_24h|].
  split; [done|]. by destruct fs as [| |[[|e data]|]].
Qed.

Lemma empty_store_queries_witness :
  get_all_logs NoFile = Ok []
  ∧ @get_city_avg_temp exact_arith NoFile = Ok []
  ∧ get_hottest_coldest_cities NoFile noon true = Ok (None, None)
  ∧ plot_temp_city_logs NoFile "Paris" = Ok []
  ∧ _is_duplicate_entry NoFile "Paris" noon = Ok false.
Proof. apply (@empty_store_queries exact_arith NoFile "Paris" noon true). reflexivity. Defined.

(** * The rest of the code *)

(** ** [_init_json_file] *)

(** [_init_json_file] changes nothing that the methods of the class can
    see: every reader answers the same before and after it, an append
    leaves the same file, and a second call changes nothing. *)
Theorem init_json_file_invisible `{PyFloat} fs city t now last_24h wd :
  get_all_logs (_init_json_file fs) = get_all_logs fs
  ∧ _is_duplicate_entry (_init_json_file fs) city t = _is_duplicate_entry fs city t
  ∧ get_city_avg_temp (_init_json_file fs) = get_city_avg_temp fs
  ∧ get_hottest_coldest_cities (_init_json_file fs) now last_24h
    = get_hottest_coldest_cities fs now last_24h
  ∧ plot_temp (_init_json_file fs) city = plot_temp fs city
  ∧ _save_weather_data (_init_json_file fs) wd = _save_weather_data fs wd
  ∧ stored (_init_json_file fs) = stored fs
  ∧ _init_json_file (_init_json_file fs) = _init_json_file fs.
Proof. destruct fs as [| |d]; repeat split; by destruct last_24h. Qed.

(** ** The query is case-insensitive *)

Lemma scan_entries_lower q1 q2 cutoff data :
  lower q1 = lower q2 →
  scan_entries q1 cutoff data = scan_entries q2 cutoff data.
Proof.
  intros Hq. induction data as [|e data IH]; [done|].
  cbn [scan_entries]. by rewrite Hq, IH.
Qed.

Lemma filterR_ext {A} (p q : A -> result bool) l :
  (∀ x, p x = q x) → filterR p l = filterR q l.
Proof. intros Hpq. induction l as [|x l IH]; [done|]. simpl. by rewrite Hpq, IH. Qed.

(** Two queries that differ only in the case of their ASCII letters get
    the same answer from the deduplication check, the same series from
    [plot_temp] and the same path for the figure. *)
Theorem query_case_insensitive fs q1 q2 t :
  lower q1 = lower q2 →
  _is_duplicate_entry fs q1 t = _is_duplicate_entry fs q2 t
  ∧ plot_temp_city_logs fs q1 = plot_temp_city_logs fs q2
  ∧ plot_filepath q1 = plot_filepath q2.
Proof.
  intros Hq. split; [|split].
  - unfold _is_duplicate_entry. destruct (json_load fs) as [[data|]|]; try done.
    simpl. by rewrite (scan_entries_lower q1 q2).
  - unfold plot_temp_city_logs. destruct (get_all_logs fs) as [logs|]; [|done].
    simpl. rewrite (filterR_ext (city_matches q1) (city_matches q2)); [done|].
    intros x. unfold city_matches. by rewrite Hq.
  - unfold plot_filepath. by rewrite Hq.
Qed.

Lemma query_case_insensitive_witness :
  _is_duplicate_entry (Parsed (JArray history)) "PARIS" noon
  = _is_duplicate_entry (Parsed (JArray history)) "paris" noon
  ∧ plot_temp_city_logs (Parsed (JArray history)) "PARIS"
    = plot_temp_city_logs (Parsed (JArray history)) "paris"
  ∧ plot_filepath "PARIS" = plot_filepath "paris".
Proof.
  apply (query_case_insensitive (Parsed (JArray history)) "PARIS" "paris" noon).
  reflexivity.
Defined.

(** ** The provider: when a fetch succeeds *)

(** [_fetch_weather_data] returns a record exactly when the request meets
    no transport error, the status is 200, the body is JSON, the four
    fields read from it exist and the temperature read is a number; every
    other outcome gives [None]. *)
Theorem fetch_weather_data_succeeds_iff `{PyFloat} env :
  is_some (_fetch_weather_data env) = true
  ↔ ∃ data, outcome env = HttpResponse 200 (Some data)
      ∧ is_some (p_name data) = true
      ∧ is_some (p_temp data ≫= as_number) = true
      ∧ is_some (p_description data) = true
      ∧ is_some (p_humidity data) = true.
Proof.
  unfold _fetch_weather_data, build_weather_data. split.
  - destruct (outcome env) as [|status body]; [done|].
    destruct (Z.eqb_spec status 200) as [->|]; [|done].
    destruct body as [data|]; [|done]. intros Hs. exists data.
    cbn [of_option mbind result_bind] in Hs.
    destruct (p_name data); [|done]. cbn [of_option mbind result_bind] in Hs.
    destruct (p_temp data) as [temp|]; [|done].
    cbn [of_option mbind result_bind option_bind] in *.
    destruct (as_number temp); [|done]. cbn [of_option mbind result_bind] in Hs.
    destruct (p_description data); [|done]. cbn [of_option mbind result_bind] in Hs.
    by destruct (p_humidity data).
  - intros (data & -> & Hn & Ht & Hd & Hh). cbn [Z.eqb Pos.eqb].
    cbn [of_option mbind result_bind].
    destruct (p_name data); [|done]. cbn [of_option mbind result_bind].
    destruct (p_temp data) as [temp|]; [|done].
    cbn [of_option mbind result_bind option_bind] in *.
    destruct (as_number temp); [|done]. cbn [of_option mbind result_bind].
    destruct (p_description data); [|done]. cbn [of_option mbind result_bind].
    by destruct (p_humidity data).
Qed.

(** ** The batch: every city is fetched or reported skipped *)

(** The first loop of [fetch_and_log_weather] drops no city: the cities
    to fetch and the cities reported as skipped are together the cities
    given, stripped, each as often as it was given and each list in the
    order given; a city is skipped exactly when the deduplication check
    answers true for it on the store as it is before the batch. *)
Theorem partition_cities_covers fs t cities :
  ∃ valid_cities skipped_cities,
    partition_cities fs t cities = Ok (valid_cities, skipped_cities)
    ∧ valid_cities
      = List.filter (fun c => negb (is_duplicate fs c t)) (map strip cities)
    ∧ skipped_cities = List.filter (fun c => is_duplicate fs c t) (map strip cities)
    ∧ valid_cities ++ skipped_cities ≡ₚ map strip cities.
Proof.
  induction cities as [|city cities (valid & skipped & IH & Hv & Hs & Hp)].
  { by exists [], []. }
  cbn [partition_cities]. rewrite is_duplicate_entry_total, IH.
  cbn [mbind result_bind map List.filter].
  destruct (is_duplicate fs (strip city) t); cbn [negb]; eexists _, _;
    (split; [done|]); rewrite <- Hv, <- Hs; repeat split.
  - rewrite <- Hp. by rewrite <- Permutation_middle.
  - simpl. by rewrite Hp.
Qed.

(** ** The deduplication check and the other records *)

Lemma scan_entries_cons loc cutoff e rest :
  scan_entries loc cutoff (e :: rest)
  = match scan_entries loc cutoff [e] with
    | Ok false => scan_entries loc cutoff rest
    | r => r
    end.
Proof. apply (scan_entries_app loc cutoff [e] rest). Qed.

Lemma scan_entries_filter loc cutoff data :
  forallb (fun e => is_some (location e)) data = true →
  scan_entries loc cutoff data
  = scan_entries loc cutoff (List.filter (same_location loc) data).
Proof.
  induction data as [|e data IH]; [done|]. intros [He Hd]%andb_prop.
  cbn [List.filter]. destruct (same_location loc e) eqn:Hm.
  - rewrite (scan_entries_cons _ _ e data), (scan_entries_cons _ _ e (List.filter _ _)).
    by rewrite IH.
  - rewrite scan_entries_other by done. by apply IH.
Qed.

(** Records stored under other locations do not take part in the check:
    when every stored location is a string, the answer for a location is
    the answer on the records of that location alone, also when records
    of other locations have timestamps that do not parse. *)
Theorem is_duplicate_entry_other_locations data loc t :
  forallb (fun e => is_some (location e)) data = true →
  _is_duplicate_entry (Parsed (JArray data)) loc t
  = _is_duplicate_entry (Parsed (JArray (List.filter (same_location loc) data))) loc t.
Proof.
  intros Hd. rewrite !is_duplicate_entry_array. by rewrite <- scan_entries_filter.
Qed.

Lemma is_duplicate_entry_other_locations_witness :
  _is_duplicate_entry (Parsed (JArray [london_11h; paris_bad_stamp; paris_11h30])) "London" noon
  = _is_duplicate_entry
      (Parsed (JArray (List.filter (same_location "London")
                         [london_11h; paris_bad_stamp; paris_11h30]))) "London" noon.
Proof.
  apply (is_duplicate_entry_other_locations
           [london_11h; paris_bad_stamp; paris_11h30] "London" noon).
  vm_compute. reflexivity.
Defined.

(** The store only grows, and the check only looks for one recent
    record: once it answers true, it answers true after any append. *)
Theorem append_keeps_duplicate fs wd loc t :
  _is_duplicate_entry fs loc t = Ok true →
  ∃ fs', _save_weather_data fs wd = Ok fs' ∧ _is_duplicate_entry fs' loc t = Ok true.
Proof.
  destruct fs as [| |[data|]]; try done. intros Hd.
  exists (Parsed (JArray (data ++ [wd]))). split; [done|].
  rewrite is_duplicate_entry_array in *. rewrite scan_entries_app.
  by destruct (scan_entries loc (t - two_hours) data) as [[]|].
Qed.

Lemma append_keeps_duplicate_witness :
  ∃ fs', _save_weather_data (Parsed (JArray history)) paris_bad_stamp = Ok fs'
    ∧ _is_duplicate_entry fs' "Paris" noon = Ok true.
Proof.
  apply (append_keeps_duplicate (Parsed (JArray history)) paris_bad_stamp "Paris" noon).
  vm_compute. reflexivity.
Defined.

Lemma fetch_weather_data_stamp `{PyFloat} env wd :
  valid_datetime (utc_now env) = true → utcoffset (utc_now env) = Some 0 →
  _fetch_weather_data env = Some wd →
  observed_at_utc wd = Some (naive_micros (utc_now env))
  ∧ (∀ data, outcome env = HttpResponse 200 (Some data) →
             getitem wd "city" = of_option KeyError (p_name data)).
Proof.
  intros Hv Hoff. unfold _fetch_weather_data.
  destruct (outcome env) as [|status body]; [done|].
  destruct (Z.eqb_spec status 200) as [->|]; [|done].
  destruct body as [data|]; [|done]. cbn [of_option mbind result_bind].
  unfold build_weather_data.
  destruct (p_name data) as [name|] eqn:Hname; [|done].
  cbn [of_option mbind result_bind].
  destruct (p_temp data) as [temp|]; [|done]. cbn [of_option mbind result_bind].
  destruct (as_number temp) as [kelvin|]; [|done]. cbn [of_option mbind result_bind].
  destruct (p_description data) as [description|]; [|done].
  cbn [of_option mbind result_bind].
  destruct (p_humidity data) as [humidity|]; [|done]. cbn [of_option mbind result_bind].
  intros [= <-]. split.
  - unfold observed_at_utc, parsed_stamp, stamp, getitem.
    replace (_ !! "utc_timestamp") with (Some (JStr (isoformat (utc_now env))))
      by (by simplify_map_eq).
    cbn [of_option mbind option_bind]. rewrite fromisoformat_isoformat_utc by done.
    cbn [mbind option_bind]. unfold utc_instant. rewrite Hoff.
    cbn [mbind option_bind]. f_equal. lia.
  - intros data' [= <-]. rewrite Hname. unfold getitem. by simplify_map_eq.
Qed.

(** A city that was just logged is skipped: after the record of a
    successful fetch is saved, the check answers true for every query
    that matches the name the provider returned, at every time less than
    two hours after the clock reading of the fetch.  The name matched is
    the provider's, not the name that was requested. *)
Theorem logged_city_is_duplicate `{PyFloat} fs env wd data name q t :
  fs ≠ Parsed JOther →
  forallb dedup_ready (stored fs) = true →
  valid_datetime (utc_now env) = true → utcoffset (utc_now env) = Some 0 →
  _fetch_weather_data env = Some wd →
  outcome env = HttpResponse 200 (Some data) → p_name data = Some (JStr name) →
  lower name = lower q →
  t - two_hours < naive_micros (utc_now env) →
  ∃ fs', _save_weather_data fs wd = Ok fs' ∧ _is_duplicate_entry fs' q t = Ok true.
Proof.
  intros Hfs Hready Hv Hoff Hwd Hout Hname Hq Ht.
  destruct (fetch_weather_data_stamp env wd Hv Hoff Hwd) as [Hobs Hcity].
  specialize (Hcity data Hout). rewrite Hname in Hcity. simpl in Hcity.
  exists (Parsed (JArray (stored fs ++ [wd]))).
  split; [by apply save_weather_data_appends|].
  assert (location wd = Some name) as Hloc by (unfold location; by rewrite Hcity).
  rewrite is_duplicate_entry_array, scan_entries_ready.
  - rewrite existsb_app. cbn [existsb try_except].
    unfold hit at 2. unfold same_location, observed_after.
    rewrite Hloc, Hobs, Hq, String.eqb_refl.
    replace (t - two_hours <? naive_micros (utc_now env)) with true
      by (symmetry; apply Z.ltb_lt; lia).
    cbn [andb orb]. by rewrite orb_true_r.
  - rewrite forallb_app, Hready. simpl. unfold dedup_ready. by rewrite Hloc, Hobs.
Qed.

Lemma logged_city_is_duplicate_witness :
  ∃ fs', _save_weather_data (Parsed (JArray history)) rome_12h = Ok fs'
    ∧ _is_duplicate_entry fs' "ROME" noon = Ok true.
Proof.
  apply (@logged_city_is_duplicate exact_arith (Parsed (JArray history)) rome_env rome_12h
           (mk_payload (Some (JStr "Rome")) (Some (JNum (NFloat (29315 # 100))))
                       (Some (JStr "clear sky")) (Some (JNum (NInt 40))))
           "Rome" "ROME" noon).
  - discriminate.
  - vm_compute. reflexivity.
  - vm_compute. reflexivity.
  - reflexivity.
  - vm_compute. reflexivity.
  - reflexivity.
  - reflexivity.
  - reflexivity.
  - vm_compute. reflexivity.
Defined.

(** ** What the queries return, and when they raise *)

Lemma filterR_Ok {A} (p : A -> result bool) l r :
  filterR p l = Ok r → r ⊆ l ∧ Forall (fun x => p x = Ok true) r.
Proof.
  revert r. induction l as [|x l IH]; intros r; simpl.
  - intros [= <-]. split; [done|constructor].
  - destruct (p x) as [b|] eqn:Hb; simpl; [|done].
    destruct (filterR p l) as [r'|]; simpl; [|done]. intros [= <-].
    destruct (IH r' eq_refl) as [Hsub Hall]. destruct b.
    + split; [by apply list_subseteq_skip|by constructor].
    + split; [by apply list_subseteq_cons|done].
Qed.

Lemma filterR_raise {A} (p : A -> result bool) l :
  Exists (fun x => ∃ e, p x = Raise e) l → ∃ e, filterR p l = Raise e.
Proof.
  induction 1 as [x l [e He]|x l Hl [e IH]]; simpl.
  - rewrite He. by exists e.
  - destruct (p x) as [b|e']; simpl; [|by exists e'].
    rewrite IH. by exists e.
Qed.

Lemma min_max_elem better key best bk l r :
  min_max better key best bk l = Ok r → r = best ∨ r ∈ l.
Proof.
  revert best bk. induction l as [|x l IH]; intros best bk; simpl.
  - intros [= <-]. by left.
  - destruct (key x) as [k|]; simpl; [|done].
    destruct (better k bk) as [[]|]; simpl; [| |done]; intros [->|Hr]%IH;
      rewrite elem_of_cons; auto.
Qed.

Lemma min_max_raise better key best bk l :
  Exists (fun x => ∃ e, key x = Raise e) l →
  ∃ e, min_max better key best bk l = Raise e.
Proof.
  intros Hl. revert best bk.
  induction Hl as [x l [e He]|x l Hl IH]; intros best bk; simpl.
  - rewrite He. by exists e.
  - destruct (key x) as [k|e']; simpl; [|by exists e'].
    destruct (better k bk) as [[]|e']; simpl; [apply IH|apply IH|by exists e'].
Qed.

Lemma py_max_elem key l r : py_max key l = Ok r → r ∈ l.
Proof.
  destruct l as [|x l]; [done|]. simpl. destruct (key x) as [k|]; simpl; [|done].
  intros [->|Hr]%min_max_elem; rewrite elem_of_cons; auto.
Qed.

Lemma py_min_elem key l r : py_min key l = Ok r → r ∈ l.
Proof.
  destruct l as [|x l]; [done|]. simpl. destruct (key x) as [k|]; simpl; [|done].
  intros [->|Hr]%min_max_elem; rewrite elem_of_cons; auto.
Qed.

Lemma py_max_raise key l :
  Exists (fun x => ∃ e, key x = Raise e) l → ∃ e, py_max key l = Raise e.
Proof.
  destruct l as [|x l]; [by intros ?%Exists_nil|]. simpl.
  intros [[e He]|Hl]%Exists_cons.
  - rewrite He. by exists e.
  - destruct (key x) as [k|e]; simpl; [|by exists e]. by apply min_max_raise.
Qed.

(** All or nothing: [get_all_logs] returns the whole stored history,
    re-ordered, or the empty list. *)
Lemma get_all_logs_all_or_nothing fs logs :
  get_all_logs fs = Ok logs → logs = [] ∨ logs ≡ₚ stored fs.
Proof.
  destruct fs as [| |[data|]]; try (intros [= <-]; by left).
  rewrite get_all_logs_array.
  destruct (sorted timestamp_key true data) as [l|] eqn:Hs; simpl; intros [= <-].
  - right. by apply sorted_perm in Hs.
  - by left.
Qed.

Lemma city_matches_true city e : city_matches city e = Ok true → same_location city e = true.
Proof.
  unfold city_matches, same_location, location.
  destruct (getitem e "city") as [[| | |c]|]; simpl; try done. by intros [= ->].
Qed.

(** The queries return stored records and nothing else, on every store:
    [get_all_logs] returns the whole history in another order or nothing
    at all, never a part of it; the two records of
    [get_hottest_coldest_cities] are both absent or both stored; the
    series of [plot_temp] is made of stored records that match the
    query. *)
Theorem queries_return_stored_records fs now last_24h city :
  (∀ logs, get_all_logs fs = Ok logs → logs = [] ∨ logs ≡ₚ stored fs)
  ∧ (∀ h c, get_hottest_coldest_cities fs now last_24h = Ok (h, c) →
       (h = None ∧ c = None)
       ∨ ∃ x y, h = Some x ∧ c = Some y ∧ x ∈ stored fs ∧ y ∈ stored fs)
  ∧ (∀ series, plot_temp_city_logs fs city = Ok series →
       series ⊆ stored fs ∧ Forall (fun e => same_location city e = true) series).
Proof.
  assert (∀ logs, get_all_logs fs = Ok logs → logs ⊆ stored fs) as Hsub.
  { intros logs [->|Hp]%get_all_logs_all_or_nothing;
      [apply list_subseteq_nil|by rewrite Hp]. }
  split; [apply get_all_logs_all_or_nothing|]. split.
  - intros h c. unfold get_hottest_coldest_cities.
    destruct (get_all_logs fs) as [logs|] eqn:Hl; [|done]. cbn [mbind result_bind].
    specialize (Hsub logs eq_refl).
    destruct (if last_24h then _ else _) as [l|] eqn:Hf; [|done].
    cbn [mbind result_bind].
    assert (l ⊆ logs) as Hll.
    { destruct last_24h; [by apply filterR_Ok in Hf as [? _]|by injection Hf as ->]. }
    destruct l as [|x l]; [intros [= <- <-]; by left|].
    destruct (py_max temperature_key (x :: l)) as [hot|] eqn:Hh; [|done].
    cbn [mbind result_bind].
    destruct (py_min temperature_key (x :: l)) as [cold|] eqn:Hc; [|done].
    intros [= <- <-]. right. exists hot, cold.
    apply py_max_elem in Hh. apply py_min_elem in Hc. auto 10.
  - intros series. unfold plot_temp_city_logs.
    destruct (get_all_logs fs) as [logs|] eqn:Hl; [|done]. cbn [mbind result_bind].
    specialize (Hsub logs eq_refl).
    destruct (filterR (city_matches city) logs) as [l|] eqn:Hf; [|done].
    cbn [mbind result_bind]. apply filterR_Ok in Hf as [Hll Hm].
    assert (Forall (fun e => same_location city e = true) l) as Hm'
      by (eapply Forall_impl; [done|]; apply city_matches_true).
    destruct l as [|x l]; [intros [= <-]; split; [apply list_subseteq_nil|constructor]|].
    intros Hs%sorted_perm. split; [|by rewrite Hs].
    rewrite Hs. by etrans.
Qed.

Lemma group_temps_raise logs d :
  Exists (fun e => (∃ ex, getitem e "city" = Raise ex)
                   ∨ (∃ ex, getitem e "temperature" = Raise ex)) logs →
  ∃ ex, group_temps logs d = Raise ex.
Proof.
  intros Hl. revert d. induction Hl as [e logs He|e logs Hl IH]; intros d;
    cbn [group_temps].
  - destruct He as [[ex ->]|[ex Ht]]; [by exists ex|].
    destruct (getitem e "city") as [c|ex']; [|by exists ex'].
    cbn [mbind result_bind]. rewrite Ht. by exists ex.
  - destruct (getitem e "city") as [c|ex']; [|by exists ex'].
    cbn [mbind result_bind].
    destruct (getitem e "temperature") as [v|ex']; [|by exists ex'].
    cbn [mbind result_bind]. apply IH.
Qed.

Lemma existsb_Exists_perm {A} (p : A -> bool) (P : A -> Prop) l l' :
  (∀ x, p x = true → P x) → l ≡ₚ l' → existsb p l = true → Exists P l'.
Proof.
  intros HpP Hp (x & Hx & Hpx)%existsb_exists. apply Exists_exists.
  exists x. split; [|auto]. rewrite <- Hp. by apply list_elem_of_In.
Qed.

Lemma has_field_false_raises key e :
  negb (has_field key e) = true → ∃ ex, getitem e key = Raise ex.
Proof. unfold has_field. destruct (getitem e key) as [|ex]; [done|by exists ex]. Qed.

(** The queries do not guard their reads of a record.  On a store that
    [get_all_logs] returns (every record has a string timestamp), one
    record without [city] makes [get_city_avg_temp] raise and makes
    [plot_temp] raise for every query, also a query for another city. *)
Theorem missing_city_breaks_queries `{PyFloat} fs city :
  forallb has_stamp (stored fs) = true →
  existsb (fun e => negb (has_field "city" e)) (stored fs) = true →
  (∃ ex, get_city_avg_temp fs = Raise ex)
  ∧ (∃ ex, plot_temp_city_logs fs city = Raise ex)
  ∧ (∃ ex, plot_temp fs city = Raise ex).
Proof.
  intros (logs & Hl & Hp)%get_all_logs_perm Hbad. symmetry in Hp.
  unfold get_city_avg_temp, plot_temp, plot_temp_city_logs.
  rewrite Hl. cbn [mbind result_bind].
  assert (∃ ex, filterR (city_matches city) logs = Raise ex) as [ex Hf].
  { apply filterR_raise.
    eapply existsb_Exists_perm; [|exact Hp|exact Hbad].
    intros x Hx. cbn beta in Hx.
    apply has_field_false_raises in Hx as [ex Hx]. exists ex.
    unfold city_matches. by rewrite Hx. }
  split; [|rewrite Hf; by split; exists ex].
  destruct (group_temps_raise logs []) as [ex' ->]; [|by exists ex'].
  eapply existsb_Exists_perm; [|exact Hp|exact Hbad].
  intros x Hx. left. by apply has_field_false_raises.
Qed.

Lemma missing_city_breaks_queries_witness :
  (∃ ex, @get_city_avg_temp exact_arith
           (Parsed (JArray [paris_10h; no_city; london_11h])) = Raise ex)
  ∧ (∃ ex, plot_temp_city_logs
             (Parsed (JArray [paris_10h; no_city; london_11h])) "London" = Raise ex)
  ∧ (∃ ex, plot_temp (Parsed (JArray [paris_10h; no_city; london_11h])) "London"
           = Raise ex).
Proof.
  apply (@missing_city_breaks_queries exact_arith
           (Parsed (JArray [paris_10h; no_city; london_11h])) "London");
    vm_compute; reflexivity.
Defined.

(** One record without [temperature], in a store that [get_all_logs]
    returns, makes [get_city_avg_temp] raise and makes
    [get_hottest_coldest_cities] over the whole history raise. *)
Theorem missing_temperature_breaks_queries `{PyFloat} fs now :
  forallb has_stamp (stored fs) = true →
  existsb (fun e => negb (has_field "temperature" e)) (stored fs) = true →
  (∃ ex, get_city_avg_temp fs = Raise ex)
  ∧ (∃ ex, get_hottest_coldest_cities fs now false = Raise ex).
Proof.
  intros (logs & Hl & Hp)%get_all_logs_perm Hbad. symmetry in Hp.
  unfold get_city_avg_temp, get_hottest_coldest_cities.
  rewrite Hl. cbn [mbind result_bind]. split.
  - destruct (group_temps_raise logs []) as [ex' ->]; [|by exists ex'].
    eapply existsb_Exists_perm; [|exact Hp|exact Hbad].
    intros x Hx. right. by apply has_field_false_raises.
  - destruct logs as [|x logs].
    { apply Permutation_nil_r in Hp. by rewrite Hp in Hbad. }
    destruct (py_max_raise temperature_key (x :: logs)) as [ex Hm].
    { eapply existsb_Exists_perm; [|exact Hp|exact Hbad].
      intros y Hy. by apply has_field_false_raises. }
    cbn [mbind result_bind] in *. rewrite Hm. by exists ex.
Qed.

Lemma missing_temperature_breaks_queries_witness :
  (∃ ex, @get_city_avg_temp exact_arith
           (Parsed (JArray [paris_10h; no_temperature; london_11h])) = Raise ex)
  ∧ (∃ ex, get_hottest_coldest_cities
             (Parsed (JArray [paris_10h; no_temperature; london_11h])) noon false
           = Raise ex).
Proof.
  apply (@missing_temperature_breaks_queries exact_arith
           (Parsed (JArray [paris_10h; no_temperature; london_11h])) noon);
    vm_compute; reflexivity.
Defined.

(** ** The figure [plot_temp] draws *)

Lemma remove_Z_app a b : remove_Z (a ++ b) = (remove_Z a ++ remove_Z b)%string.
Proof.
  induction a as [|c a IH]; [done|]. rewrite string_app_cons. cbn [remove_Z].
  rewrite IH. by destruct (Ascii.eqb c "Z").
Qed.

Lemma remove_Z_fmt k n : 0 <= n < 10 ^ Z.of_nat k → remove_Z (fmt_digits k n) = fmt_digits k n.
Proof.
  revert n. induction k as [|k IH]; intros n Hn; [done|].
  destruct (digits_split k n Hn) as (Ha & Hr & _).
  cbn [fmt_digits remove_Z]. rewrite (proj2 (digit_char_digit _ Ha)). by rewrite IH.
Qed.

(** The [isoformat] of a valid naive value has no [Z] to remove. *)
Lemma remove_Z_isoformat_naive dt :
  valid_datetime dt = true → utcoffset dt = None →
  remove_Z (isoformat dt) = isoformat dt.
Proof.
  intros ((Hy & Hm & Hd) & Hh & Hmi & Hs & Hus)%valid_datetime_inv Hoff.
  assert (day dt < 100).
  { unfold days_in_month in *.
    repeat match goal with
           | H : context [if ?c then _ else _] |- _ => destruct c
           end; lia. }
  unfold isoformat, format_time. rewrite Hoff. cbn [format_offset].
  rewrite !remove_Z_app.
  rewrite (remove_Z_fmt 4), !(remove_Z_fmt 2) by (simpl; lia).
  destruct (microsecond dt =? 0); [done|].
  by rewrite remove_Z_app, (remove_Z_fmt 6) by (simpl; lia).
Qed.

Lemma parse_isoformat_naive dt :
  valid_datetime dt = true → utcoffset dt = None →
  parse_isoformat (isoformat dt) = Some dt.
Proof.
  intros ((Hy & Hm & Hd) & Hh & Hmi & Hs & Hus)%valid_datetime_inv Hoff.
  assert (day dt < 100).
  { unfold days_in_month in *.
    repeat match goal with
           | H : context [if ?c then _ else _] |- _ => destruct c
           end; lia. }
  destruct dt as [y m d hh mm ss us off]. simpl in *. subst off.
  unfold isoformat, format_time. cbn [year month day hour minute second microsecond utcoffset].
  cbn [format_offset].
  rewrite !string_app_assoc, !string_app_cons, !string_app_nil.
  unfold parse_isoformat.
  rewrite parse_digits_fmt_4 by lia. cbn [mbind option_bind]. rewrite expect_cons.
  cbn [mbind option_bind]. rewrite parse_digits_fmt_2 by lia.
  cbn [mbind option_bind]. rewrite expect_cons.
  cbn [mbind option_bind]. rewrite parse_digits_fmt_2 by lia.
  cbn [mbind option_bind]. unfold parse_time.
  rewrite parse_digits_fmt_2 by lia. cbn [mbind option_bind]. rewrite expect_cons.
  rewrite parse_digits_fmt_2 by lia. cbn [mbind option_bind]. rewrite expect_cons.
  rewrite parse_digits_fmt_2 by lia. cbn [mbind option_bind].
  destruct (Z.eqb_spec us 0) as [->|Hne].
  - reflexivity.
  - rewrite string_app_cons, expect_cons.
    unfold parse_fraction.
    replace (fmt_digits 6 us ++ "")%string with (fmt_digits 6 us ++ EmptyString)%string by done.
    rewrite parse_digits_fmt_6 by lia. reflexivity.
Qed.

(** The record of a successful fetch carries the reading of the local
    clock in a form [plot_temp] reads back: for a valid naive reading,
    [fromisoformat(log['local_timestamp'].replace('Z', ''))] is that
    reading.  The record is one [plot_temp] draws exactly when the
    provider's name for the city is a string. *)
Theorem fetched_record_local_time `{PyFloat} env wd :
  valid_datetime (local_now env) = true → utcoffset (local_now env) = None →
  _fetch_weather_data env = Some wd →
  local_time wd = Ok (local_now env)
  ∧ plottable wd = is_some (location wd).
Proof.
  intros Hv Hoff. unfold _fetch_weather_data.
  destruct (outcome env) as [|status body]; [done|].
  destruct (Z.eqb_spec status 200) as [->|]; [|done].
  destruct body as [data|]; [|done]. cbn [of_option mbind result_bind].
  unfold build_weather_data.
  destruct (p_name data) as [name|] eqn:Hname; [|done].
  cbn [of_option mbind result_bind].
  destruct (p_temp data) as [temp|]; [|done]. cbn [of_option mbind result_bind].
  destruct (as_number temp) as [kelvin|]; [|done]. cbn [of_option mbind result_bind].
  destruct (p_description data) as [description|]; [|done].
  cbn [of_option mbind result_bind].
  destruct (p_humidity data) as [humidity|]; [|done]. cbn [of_option mbind result_bind].
  intros [= <-].
  match goal with |- local_time ?w = _ ∧ _ => set (wd := w) end.
  assert (local_time wd = Ok (local_now env)) as Hlt.
  { unfold local_time, getitem, wd.
    replace (_ !! "local_timestamp") with (Some (JStr (isoformat (local_now env))))
      by (by simplify_map_eq).
    cbn [of_option mbind result_bind py_remove_Z].
    rewrite remove_Z_isoformat_naive by done.
    unfold fromisoformat. by rewrite parse_isoformat_naive, Hv. }
  split; [done|].
  unfold plottable, local_reading. rewrite Hlt.
  assert (has_stamp wd = true) as ->.
  { unfold has_stamp, stamp, getitem, wd.
    replace (_ !! "utc_timestamp") with (Some (JStr (isoformat (utc_now env))))
      by (by simplify_map_eq).
    done. }
  assert (has_field "temperature" wd = true) as ->.
  { unfold has_field, getitem, wd.
    replace (_ !! "temperature") with (Some (JNum (_kelvin_to_celsius kelvin)))
      by (by simplify_map_eq).
    done. }
  cbn [is_some]. by rewrite !andb_true_r.
Qed.

Lemma fetched_record_local_time_witness :
  local_time rome_12h = Ok (local_now rome_env)
  ∧ plottable rome_12h = is_some (location rome_12h).
Proof.
  apply (@fetched_record_local_time exact_arith rome_env rome_12h);
    vm_compute; reflexivity.
Defined.

Lemma plottable_inv e :
  plottable e = true →
  is_some (location e) = true ∧ has_stamp e = true
  ∧ (∃ v, getitem e "temperature" = Ok v) ∧ ∃ dt, local_time e = Ok dt.
Proof.
  unfold plottable, has_field, local_reading.
  intros [[[? ?]%andb_prop Ht]%andb_prop Hl]%andb_prop. repeat split; [done..| |].
  - destruct (getitem e "temperature") as [v|]; [by exists v|done].
  - destruct (local_time e) as [dt|]; [by exists dt|done].
Qed.

Lemma mapR_Forall_Ok {A B} (f : A -> result B) l :
  Forall (fun x => ∃ y, f x = Ok y) l → ∃ ys, mapR f l = Ok ys.
Proof.
  induction 1 as [|x l [y Hy] Hl [ys IH]]; simpl; [by exists []|].
  rewrite Hy, IH. by eexists.
Qed.

(** On a store of records [plot_temp] can draw, the method never raises;
    it returns without a figure exactly when no stored record matches the
    query, and the figure has otherwise one point per matching record,
    its local clock reading against its temperature, is titled with the
    location of the first point and is saved under the path of the
    query. *)
Theorem plot_temp_figure fs city :
  forallb plottable (stored fs) = true →
  ∃ series, plot_temp_city_logs fs city = Ok series
    ∧ series ≡ₚ List.filter (same_location city) (stored fs)
    ∧ match series with
      | [] => plot_temp fs city = Ok None
      | first :: _ =>
          ∃ fig, plot_temp fs city = Ok (Some fig)
            ∧ Forall2 (fun e dt => local_time e = Ok dt) series (timestamps fig)
            ∧ Forall2 (fun e v => getitem e "temperature" = Ok v) series (temperatures fig)
            ∧ getitem first "city" = Ok (title_city fig)
            ∧ filepath fig = plot_filepath city
      end.
Proof.
  intros Hr.
  assert (forallb has_stamp (stored fs) = true) as Hs.
  { rewrite forallb_forall in *. intros e He. by apply Hr, plottable_inv in He as (_ & ? & _). }
  destruct (get_all_logs_perm fs Hs) as (logs & Hl & Hp).
  assert (forallb plottable logs = true) as Hrl
    by (eapply forallb_perm; [symmetry; exact Hp|done]).
  unfold plot_temp, plot_temp_city_logs. rewrite Hl. cbn [mbind result_bind].
  rewrite (filterR_total _ (same_location city)).
  2:{ apply Forall_forall. intros e He. apply city_matches_same_location.
      rewrite forallb_forall in Hrl.
      by apply list_elem_of_In, Hrl, plottable_inv in He as (? & _). }
  cbn [mbind result_bind].
  assert (forallb plottable (List.filter (same_location city) logs) = true) as Hf
    by (by apply forallb_filter).
  pose proof (filter_perm (same_location city) _ _ Hp) as Hfp.
  destruct (List.filter (same_location city) logs) as [|x l] eqn:Hcl.
  { exists []. by repeat split. }
  destruct (sorted_str_keys timestamp_key false (x :: l)) as (series & Hso & Hps & _).
  { apply Forall_forall. intros e He. apply has_stamp_str_keyed.
    rewrite forallb_forall in Hf.
    by apply list_elem_of_In, Hf, plottable_inv in He as (_ & ? & _). }
  exists series. rewrite Hso. split; [done|]. split; [by rewrite Hps|].
  cbn [mbind result_bind].
  assert (Forall (fun e => plottable e = true) series) as Hall.
  { apply Forall_forall. intros e He. rewrite Hps in He.
    rewrite forallb_forall in Hf. by apply Hf, list_elem_of_In. }
  destruct series as [|first rest].
  { apply Permutation_nil_cons in Hps. done. }
  destruct (mapR_Forall_Ok local_time (first :: rest)) as [ts Hts].
  { eapply Forall_impl; [exact Hall|]. by intros e (_ & _ & _ & ?)%plottable_inv. }
  destruct (mapR_Forall_Ok temperature_key (first :: rest)) as [temps Htemps].
  { eapply Forall_impl; [exact Hall|]. by intros e (_ & _ & ? & _)%plottable_inv. }
  rewrite Hts, Htemps. cbn [mbind result_bind].
  apply Forall_cons in Hall as [(Hloc & _)%plottable_inv _].
  destruct (location first) as [c|] eqn:Hc; [|done].
  rewrite (location_getitem _ _ Hc). cbn [mbind result_bind].
  eexists. split; [done|]. cbn [timestamps temperatures title_city filepath].
  repeat split; [by apply mapR_Ok|by apply mapR_Ok].
Qed.

Lemma plot_temp_figure_witness :
  ∃ series, plot_temp_city_logs (Parsed (JArray [rome_12h; paris_10h; paris_13h])) "paris"
            = Ok series
    ∧ series ≡ₚ List.filter (same_location "paris")
                  (stored (Parsed (JArray [rome_12h; paris_10h; paris_13h])))
    ∧ match series with
      | [] => plot_temp (Parsed (JArray [rome_12h; paris_10h; paris_13h])) "paris" = Ok None
      | first :: _ =>
          ∃ fig, plot_temp (Parsed (JArray [rome_12h; paris_10h; paris_13h])) "paris"
                 = Ok (Some fig)
            ∧ Forall2 (fun e dt => local_time e = Ok dt) series (timestamps fig)
            ∧ Forall2 (fun e v => getitem e "temperature" = Ok v) series (temperatures fig)
            ∧ getitem first "city" = Ok (title_city fig)
            ∧ filepath fig = plot_filepath "paris"
      end.
Proof.
  apply (plot_temp_figure (Parsed (JArray [rome_12h; paris_10h; paris_13h])) "paris").
  vm_compute. reflexivity.
Defined.

(** ** The batch typed at the prompt *)

Lemma split_comma_nonempty s : split_comma s ≠ [].
Proof.
  destruct s as [|c s]; [done|]. cbn [split_comma].
  destruct (Ascii.eqb c ","); [done|]. by destruct (split_comma s).
Qed.

Lemma split_comma_length s : length (split_comma s) = S (count_commas s).
Proof.
  induction s as [|c s IH]; [done|]. cbn [split_comma count_commas].
  destruct (Ascii.eqb c ","); [by rewrite <- IH|].
  rewrite <- IH. pose proof (split_comma_nonempty s). by destruct (split_comma s).
Qed.

Lemma split_comma_concat s : String.concat "," (split_comma s) = s.
Proof.
  induction s as [|c s IH]; [done|]. cbn [split_comma].
  destruct (Ascii.eqb_spec c ",") as [->|Hc].
  - pose proof (split_comma_nonempty s).
    destruct (split_comma s) as [|x r] eqn:Hs; [done|].
    change (String.concat "," ("" :: x :: r))
      with (String "," (String.concat "," (x :: r))). by rewrite IH.
  - pose proof (split_comma_nonempty s).
    destruct (split_comma s) as [|x r] eqn:Hs; [done|].
    rewrite <- IH. destruct r; reflexivity.
Qed.

Lemma split_comma_no_comma s :
  Forall (fun x => ¬ In ","%char (list_ascii_of_string x)) (split_comma s).
Proof.
  induction s as [|c s IH]; [by repeat constructor; intros []|]. cbn [split_comma].
  destruct (Ascii.eqb_spec c ",") as [->|Hc].
  - constructor; [intros []|done].
  - pose proof (split_comma_nonempty s).
    destruct (split_comma s) as [|x r]; [done|].
    apply Forall_cons in IH as [Hx Hr]. constructor; [|done].
    cbn [list_ascii_of_string]. intros [?|?]; [by subst|done].
Qed.

Lemma lstrip_chars c s :
  In c (list_ascii_of_string (lstrip s)) → In c (list_ascii_of_string s).
Proof.
  induction s as [|a s IH]; [done|]. cbn [lstrip].
  destruct (is_space a); [|done]. intros ?%IH. by right.
Qed.

Lemma rstrip_chars c s :
  In c (list_ascii_of_string (rstrip s)) → In c (list_ascii_of_string s).
Proof.
  induction s as [|a s IH]; [done|]. cbn [rstrip].
  destruct (rstrip s) as [|b r].
  - destruct (is_space a); [done|]. intros [?|[]]. by left.
  - cbn [list_ascii_of_string] in *. intros [?|?]; [by left|right; by apply IH].
Qed.

Lemma rstrip_idem s : rstrip (rstrip s) = rstrip s.
Proof.
  induction s as [|a s IH]; [done|]. cbn [rstrip].
  destruct (rstrip s) as [|b r] eqn:Hr.
  - destruct (is_space a) eqn:Ha; [done|]. simpl. by rewrite Ha.
  - change (rstrip (String a (String b r)))
      with (match rstrip (String b r) with
            | EmptyString => if is_space a then EmptyString else String a EmptyString
            | r' => String a r'
            end).
    by rewrite IH.
Qed.

Lemma lstrip_rstrip s : lstrip (rstrip (lstrip s)) = rstrip (lstrip s).
Proof.
  induction s as [|a s IH]; [done|]. cbn [lstrip].
  destruct (is_space a) eqn:Ha; [done|]. cbn [rstrip].
  destruct (rstrip s); rewrite ?Ha; cbn [lstrip]; by rewrite Ha.
Qed.

Lemma strip_idem s : strip (strip s) = strip s.
Proof. unfold strip. by rewrite lstrip_rstrip, rstrip_idem. Qed.

(** [[city.strip() for city in s.split(',')]] yields one name per
    comma-separated field of the line, which is one more than the line
    has commas and never none; every name is free of commas and of
    surrounding white space, so that the [strip] of
    [fetch_and_log_weather] leaves the names as they are; and the fields
    joined by commas are the line. *)
Theorem parse_cities_fields s :
  length (parse_cities s) = S (count_commas s)
  ∧ Forall (fun c => strip c = c ∧ ¬ In ","%char (list_ascii_of_string c)) (parse_cities s)
  ∧ map strip (parse_cities s) = parse_cities s
  ∧ String.concat "," (split_comma s) = s.
Proof.
  unfold parse_cities. split; [by rewrite length_map, split_comma_length|].
  split; [|split; [|apply split_comma_concat]].
  - apply Forall_map. eapply Forall_impl; [apply split_comma_no_comma|].
    intros x Hx. cbn beta. split; [apply strip_idem|].
    intros Hin. apply Hx. unfold strip in Hin. by apply lstrip_chars, rstrip_chars.
  - rewrite <- list_fmap_compose. apply map_ext. intros x. apply strip_idem.
Qed.

Lemma fetch_and_log_weather_eligible `{PyFloat} fs t net cities :
  fs ≠ Parsed JOther →
  fetch_and_log_weather fs t net cities
  = Ok (match fetched net (eligible fs t cities) with
        | [] => fs
        | _ => Parsed (JArray (stored fs ++ fetched net (eligible fs t cities)))
        end, fetched net (eligible fs t cities)).
Proof.
  intros Hfs. unfold fetch_and_log_weather.
  destruct (partition_cities_eligible fs t cities) as [skipped ->]. simpl.
  destruct (eligible fs t cities) as [|city valid] eqn:Hv; [done|].
  rewrite <- Hv. clear Hv.
  rewrite log_results_appends; [done|done|].
  apply Forall_forall. intros r Hr.
  apply list_elem_of_lookup in Hr as [i Hi].
  rewrite list_lookup_imap in Hi.
  destruct (eligible fs t cities !! i) as [c|]; simplify_eq/=.
  apply fetch_weather_data_truthy.
Qed.

Lemma omap_length_le {A B} (f : A -> option B) l :
  (length (omap f l) <= length l)%nat.
Proof. induction l as [|x l IH]; csimpl; [lia|]. destruct (f x); csimpl; lia. Qed.

Lemma filter_length_bound {A} (p : A -> bool) l :
  (length (List.filter p l) <= length l)%nat.
Proof. induction l as [|x l IH]; simpl; [lia|]. destruct (p x); simpl; lia. Qed.

Lemma fetched_length `{PyFloat} net cities :
  (length (fetched net cities) <= length cities)%nat.
Proof.
  unfold fetched. etrans; [apply omap_length_le|]. by rewrite length_imap.
Qed.

(** [option_1] on a store it can append to: a blank line changes nothing;
    any other line appends the observations fetched for the
    comma-separated names that the deduplication policy lets through, at
    most one per field of the line, and leaves the records already
    stored in place. *)
Theorem option_1_appends `{PyFloat} fs t net line :
  fs ≠ Parsed JOther →
  ∃ fs' logged, option_1 fs t net line = Ok (fs', logged)
    ∧ stored fs' = stored fs ++ logged
    ∧ (length logged <= S (count_commas (strip line)))%nat
    ∧ (strip line = ""%string → fs' = fs ∧ logged = [])
    ∧ (strip line ≠ ""%string →
       logged = fetched net (List.filter (fun c => negb (is_duplicate fs c t))
                               (parse_cities (strip line)))).
Proof.
  intros Hfs. unfold option_1. cbn zeta.
  destruct (String.eqb_spec (strip line) "") as [He|Hne].
  { exists fs, []. rewrite app_nil_r. repeat split; [simpl; lia|done]. }
  rewrite fetch_and_log_weather_eligible by done.
  assert (eligible fs t (parse_cities (strip line))
          = List.filter (fun c => negb (is_duplicate fs c t)) (parse_cities (strip line)))
    as Hel.
  { unfold eligible. f_equal. unfold parse_cities.
    rewrite <- list_fmap_compose. apply map_ext. intros x. apply strip_idem. }
  eexists _, _. split; [done|]. split; [|split; [|split; [done|by rewrite Hel]]].
  - by destruct (fetched net (eligible fs t (parse_cities (strip line)))); rewrite ?app_nil_r.
  - etrans; [apply fetched_length|]. unfold eligible.
    etrans; [apply filter_length_bound|].
    unfold parse_cities. by rewrite !length_map, split_comma_length.
Qed.

Lemma option_1_appends_witness :
  ∃ fs' logged,
    @option_1 exact_arith (Parsed (JArray history)) noon sample_net " Rome , Paris,Atlantis "
    = Ok (fs', logged)
    ∧ stored fs' = stored (Parsed (JArray history)) ++ logged
    ∧ (length logged <= S (count_commas (strip " Rome , Paris,Atlantis ")))%nat
    ∧ (strip " Rome , Paris,Atlantis " = ""%string →
       fs' = Parsed (JArray history) ∧ logged = [])
    ∧ (strip " Rome , Paris,Atlantis " ≠ ""%string →
       logged = @fetched exact_arith sample_net
                  (List.filter
                     (fun c => negb (is_duplicate (Parsed (JArray history)) c noon))
                     (parse_cities (strip " Rome , Paris,Atlantis ")))).
Proof.
  apply (@option_1_appends exact_arith (Parsed (JArray history)) noon sample_net
           " Rome , Paris,Atlantis ").
  discriminate.
Defined.

(** ** What [option_4] and [option_5] report *)

Lemma py_min_raise key l :
  Exists (fun x => ∃ e, key x = Raise e) l → ∃ e, py_min key l = Raise e.
Proof.
  destruct l as [|x l]; [by intros ?%Exists_nil|]. simpl.
  intros [[e He]|Hl]%Exists_cons.
  - rewrite He. by exists e.
  - destruct (key x) as [k|e]; simpl; [|by exists e]. by apply min_max_raise.
Qed.

Lemma py_max_key (key : entry -> result scalar) l r :
  py_max key l = Ok r → r ∈ l ∧ ∃ k, key r = Ok k.
Proof.
  intros Hr. pose proof (py_max_elem _ _ _ Hr) as Hin. split; [done|].
  destruct (key r) as [k|e] eqn:Hk; [by exists k|].
  destruct (py_max_raise key l) as [e' He']; [|congruence].
  apply Exists_exists. exists r. split; [done|by exists e].
Qed.

Lemma py_min_key (key : entry -> result scalar) l r :
  py_min key l = Ok r → r ∈ l ∧ ∃ k, key r = Ok k.
Proof.
  intros Hr. pose proof (py_min_elem _ _ _ Hr) as Hin. split; [done|].
  destruct (key r) as [k|e] eqn:Hk; [by exists k|].
  destruct (py_min_raise key l) as [e' He']; [|congruence].
  apply Exists_exists. exists r. split; [done|by exists e].
Qed.

Lemma extremes_inv fs now last_24h h c :
  get_hottest_coldest_cities fs now last_24h = Ok (h, c) →
  (h = None ∧ c = None)
  ∨ ∃ x y, h = Some x ∧ c = Some y ∧ x ∈ stored fs ∧ y ∈ stored fs
      ∧ (∃ k, getitem x "temperature" = Ok k) ∧ (∃ k, getitem y "temperature" = Ok k).
Proof.
  unfold get_hottest_coldest_cities.
  destruct (get_all_logs fs) as [logs|] eqn:Hl; [|done]. cbn [mbind result_bind].
  assert (logs ⊆ stored fs) as Hsub.
  { apply get_all_logs_all_or_nothing in Hl as [->|Hp];
      [apply list_subseteq_nil|by rewrite Hp]. }
  destruct (if last_24h then _ else _) as [l|] eqn:Hf; [|done].
  cbn [mbind result_bind].
  assert (l ⊆ logs) as Hll.
  { destruct last_24h; [by apply filterR_Ok in Hf as [? _]|by injection Hf as ->]. }
  destruct l as [|x l]; [intros [= <- <-]; by left|].
  destruct (py_max temperature_key (x :: l)) as [hot|] eqn:Hh; [|done].
  cbn [mbind result_bind].
  destruct (py_min temperature_key (x :: l)) as [cold|] eqn:Hc; [|done].
  intros [= <- <-]. right. exists hot, cold.
  apply py_max_key in Hh as [? ?]. apply py_min_key in Hc as [? ?].
  unfold temperature_key in *. auto 10.
Qed.

Lemma getitem_truthy e key k : getitem e key = Ok k → truthy (Some e) = true.
Proof.
  destruct e as [fields|v]; [|done]. cbn [getitem truthy].
  destruct (fields !! key) eqn:Hk; [|done]. intros _.
  apply negb_true_iff, bool_decide_eq_false. intros ->. by rewrite lookup_empty in Hk.
Qed.

(** [option_4] ([last_24h] false) and [option_5] ([last_24h] true) print
    "No data available" exactly when [get_hottest_coldest_cities] finds no
    record to consider; what they print otherwise are the city, the
    temperature and the description of two stored records. *)
Theorem option_extremes_report fs now last_24h :
  (option_extremes fs now last_24h = Ok NoData
   ↔ get_hottest_coldest_cities fs now last_24h = Ok (None, None))
  ∧ (∀ hc ht hd cc ct cd,
       option_extremes fs now last_24h = Ok (HottestColdest hc ht hd cc ct cd) →
       ∃ h c, get_hottest_coldest_cities fs now last_24h = Ok (Some h, Some c)
         ∧ h ∈ stored fs ∧ c ∈ stored fs
         ∧ getitem h "city" = Ok hc ∧ getitem h "temperature" = Ok ht
         ∧ getitem h "description" = Ok hd
         ∧ getitem c "city" = Ok cc ∧ getitem c "temperature" = Ok ct
         ∧ getitem c "description" = Ok cd)
  ∧ option_4 fs now = option_extremes fs now false
  ∧ option_5 fs now = option_extremes fs now true.
Proof.
  split; [|split; [|done]]; unfold option_extremes;
    destruct (get_hottest_coldest_cities fs now last_24h) as [[h c]|ex] eqn:Hg;
    cbn [mbind result_bind]; try done.
  - apply extremes_inv in Hg
      as [[-> ->]|(x & y & -> & -> & _ & _ & [kx Hx] & [ky Hy])]; [done|].
    rewrite (getitem_truthy _ _ _ Hx), (getitem_truthy _ _ _ Hy). cbn [negb orb].
    split; [|done].
    destruct (getitem x "city"); cbn [mbind result_bind]; [|done].
    rewrite Hx. cbn [mbind result_bind].
    destruct (getitem x "description"); cbn [mbind result_bind]; [|done].
    destruct (getitem y "city"); cbn [mbind result_bind]; [|done].
    rewrite Hy. cbn [mbind result_bind].
    by destruct (getitem y "description").
  - intros hc ht hd cc ct cd.
    apply extremes_inv in Hg
      as [[-> ->]|(x & y & -> & -> & Hxs & Hys & [kx Hx] & [ky Hy])]; [done|].
    rewrite (getitem_truthy _ _ _ Hx), (getitem_truthy _ _ _ Hy). cbn [negb orb].
    destruct (getitem x "city") as [a|] eqn:Ha; cbn [mbind result_bind]; [|done].
    rewrite Hx. cbn [mbind result_bind].
    destruct (getitem x "description") as [b|] eqn:Hb; cbn [mbind result_bind]; [|done].
    destruct (getitem y "city") as [a'|] eqn:Ha'; cbn [mbind result_bind]; [|done].
    rewrite Hy. cbn [mbind result_bind].
    destruct (getitem y "description") as [b'|] eqn:Hb'; cbn [mbind result_bind]; [|done].
    intros [= <- <- <- <- <- <-]. exists x, y. by repeat split.
Qed.
